(** * Changelog validation in [noxfile.py]

    A shallow embedding of the changelog checks of the b2-sdk-python
    [noxfile.py]: [is_changelog_filename_valid], [is_changelog_entry_valid]
    and the directory scan [towncrier_check], together with the Python
    built-ins they call ([str.rsplit], [int], [str.strip], indexing,
    [str.join], [str.isalpha], [str.isupper]).

    Python strings are sequences of Unicode code points; exceptions are
    made explicit through the [outcome] type. *)

From Stdlib Require Import NArith ZArith List String Ascii Lia.
From Stdlib.Strings Require Import Byte.
From stdpp Require Import base option list gmap sets.

Open Scope N_scope.

(** ** Python values *)

(** A [str] is a list of code points. *)
Abbreviation str := (list N).

(** A [bytes] object. *)
Abbreviation bytes := (list byte).

(** A literal with ASCII characters only. *)
Definition lit (s : string) : str :=
  map N_of_ascii (list_ascii_of_string s).

(** The exceptions that the modelled code can raise. [SessionQuit] is what
    nox's [session.error] raises. *)
Inductive exn : Type :=
  | IndexError
  | ValueError
  | UnicodeDecodeError
  | SessionQuit (msg : str).

Inductive outcome (A : Type) : Type :=
  | Returned (a : A)
  | Raised (e : exn).

Arguments Returned {A} a.
Arguments Raised {A} e.

Global Instance outcome_ret : MRet outcome := fun _ a => Returned a.
Global Instance outcome_bind : MBind outcome := fun _ _ k m =>
  match m with
  | Returned a => k a
  | Raised e => Raised e
  end.

Definition returns {A} (m : outcome A) : Prop := ∃ a, m = Returned a.

(** ** The interpreter's tables

    The parts of the Python run time that live outside the source file and
    are too large, or too unspecified, to write down: the Unicode character
    database beyond ASCII, the limit on the number of digits [int] accepts,
    and the rendering of a [set] by [str()] (whose element order depends on
    the interpreter's string hashing). *)
Record interp : Type := {
  uc_isalpha : N → bool;
  uc_isupper : N → bool;
  uc_todecimal : N → option N;
  int_max_str_digits : N;
  set_str : gset str → str;
}.

(** ** Character classes *)

(** [Py_UNICODE_ISSPACE]: the complete list of code points that
    [str.strip] removes. *)
Definition py_isspace (c : N) : bool :=
  ((9 <=? c) && (c <=? 13)) || ((28 <=? c) && (c <=? 32))
  || (c =? 133) || (c =? 160) || (c =? 5760)
  || ((8192 <=? c) && (c <=? 8202)) || (c =? 8232) || (c =? 8233)
  || (c =? 8239) || (c =? 8287) || (c =? 12288).

(** [Py_ISSPACE]: the C-locale white space that [int] skips in its ASCII
    buffer. *)
Definition c_isspace (c : N) : bool :=
  ((9 <=? c) && (c <=? 13)) || (c =? 32).

Definition ascii_isupper (c : N) : bool := (65 <=? c) && (c <=? 90).
Definition ascii_islower (c : N) : bool := (97 <=? c) && (c <=? 122).

Section Runtime.
Context (rt : interp).

(** [c.isalpha()] for a one-character string. *)
Definition py_isalpha (c : N) : bool :=
  if c <? 128 then ascii_isupper c || ascii_islower c else uc_isalpha rt c.

(** [c.isupper()] for a one-character string. *)
Definition py_isupper (c : N) : bool :=
  if c <? 128 then ascii_isupper c else uc_isupper rt c.

(** [Py_UNICODE_TODECIMAL]. *)
Definition py_todecimal (c : N) : option N :=
  if c <? 128
  then (if (48 <=? c) && (c <=? 57) then Some (c - 48) else None)
  else uc_todecimal rt c.
End Runtime.

(** ** Indexing, stripping, splitting, joining *)

(** [s[i]], with Python's negative indices. *)
Definition getitem (s : str) (i : Z) : outcome N :=
  let n := Z.of_nat (length s) in
  let j := if (i <? 0)%Z then (i + n)%Z else i in
  if ((0 <=? j) && (j <? n))%Z
  then match s !! Z.to_nat j with
       | Some c => Returned c
       | None => Raised IndexError
       end
  else Raised IndexError.

Fixpoint lstrip (s : str) : str :=
  match s with
  | [] => []
  | c :: s' => if py_isspace c then lstrip s' else s
  end.

Definition rstrip (s : str) : str := rev (lstrip (rev s)).

(** [s.strip()] *)
Definition strip (s : str) : str := rstrip (lstrip s).

(** [s.rpartition(sep)] for a one-character separator, when [sep] occurs:
    the text before the last [sep] and the text after it. *)
Fixpoint rpartition (sep : N) (s : str) : option (str * str) :=
  match s with
  | [] => None
  | c :: s' =>
      match rpartition sep s' with
      | Some (a, b) => Some (c :: a, b)
      | None => if c =? sep then Some ([], s') else None
      end
  end.

(** [s.rsplit(sep, maxsplit)] for a one-character separator: at most
    [maxsplit] cuts, taken from the right. *)
Fixpoint rsplit (sep : N) (maxsplit : nat) (s : str) : list str :=
  match maxsplit with
  | O => [s]
  | S k =>
      match rpartition sep s with
      | None => [s]
      | Some (a, b) => rsplit sep k a ++ [b]
      end
  end.

(** [sep.join(l)] *)
Fixpoint join (sep : str) (l : list str) : str :=
  match l with
  | [] => []
  | x :: l' =>
      match l' with
      | [] => x
      | _ :: _ => x ++ sep ++ join sep l'
      end
  end.

(** ** The built-in [int] on a string (base 10)

    [int(s)] first rewrites [s] into an ASCII buffer
    ([_PyUnicode_TransformDecimalAndSpaceToASCII]), then reads it with
    [PyLong_FromString]: C white space, an optional sign, decimal digits
    with single underscores between them, C white space, end of buffer.
    Anything else raises [ValueError]. *)

Section Int.
Context (rt : interp).

(** The rewriting of a string that is not pure ASCII: white space becomes
    a blank, a decimal digit of any script its ASCII digit, and the first
    other code point from 127 up becomes a question mark that ends the
    buffer. *)
Fixpoint transform_decimal_and_space (s : str) : str :=
  match s with
  | [] => []
  | ch :: s' =>
      if ch <? 127 then ch :: transform_decimal_and_space s'
      else if py_isspace ch then 32 :: transform_decimal_and_space s'
      else match py_todecimal rt ch with
           | Some d => (48 + d) :: transform_decimal_and_space s'
           | None => [63]
           end
  end.

Definition ascii_buffer (s : str) : str :=
  if forallb (fun c => c <? 128) s then s
  else transform_decimal_and_space s.

Fixpoint skip_c_space (s : str) : str :=
  match s with
  | [] => []
  | c :: s' => if c_isspace c then skip_c_space s' else s
  end.

(** The digit loop of [long_from_string_base]: the digits read and the
    rest of the buffer, or [None] for a doubled or trailing underscore.
    [prev_us] tells that the previous character was an underscore. *)
Fixpoint scan_digits (prev_us : bool) (s : str) : option (list N * str) :=
  match s with
  | [] => if prev_us then None else Some ([], [])
  | c :: s' =>
      if c =? 95 then
        if prev_us then None else scan_digits true s'
      else if (48 <=? c) && (c <=? 57) then
        match scan_digits false s' with
        | Some (ds, rest) => Some ((c - 48) :: ds, rest)
        | None => None
        end
      else if prev_us then None else Some ([], s)
  end.

Definition digits_value (ds : list N) : Z :=
  fold_left (fun acc d => (10 * acc + Z.of_N d)%Z) ds 0%Z.

Definition too_many_digits (ds : list N) : bool :=
  let digits := N.of_nat (length ds) in
  (640 <? digits) && (0 <? int_max_str_digits rt)
  && (int_max_str_digits rt <? digits).

Definition py_int (s : str) : outcome Z :=
  let p := skip_c_space (ascii_buffer s) in
  let '(negative, p) :=
    match p with
    | c :: p' =>
        if c =? 43 then (false, p')
        else if c =? 45 then (true, p')
        else (false, p)
    | [] => (false, p)
    end in
  match p with
  | c :: _ => if c =? 95 then Raised ValueError else
      match scan_digits false p with
      | None => Raised ValueError
      | Some ([], _) => Raised ValueError
      | Some (ds, rest) =>
          match skip_c_space rest with
          | _ :: _ => Raised ValueError
          | [] =>
              if too_many_digits ds then Raised ValueError
              else Returned (if negative then (- digits_value ds)%Z
                             else digits_value ds)
          end
      end
  | [] => Raised ValueError
  end.
End Int.

(** ** The messages *)

Definition dot : N := 46.
Definition plus_sign : N := 43.
Definition double_quote : N := 34.
Definition en_dash : N := 8211.

(** ['Doesn\'t follow the "<description>.<change_type>.md" pattern.'] *)
Definition pattern_reason : str :=
  lit "Doesn't follow the " ++ [double_quote]
  ++ lit "<description>.<change_type>.md" ++ [double_quote]
  ++ lit " pattern.".

Definition extension_reason (wanted_extension : str) : str :=
  lit "Doesn't end with " ++ wanted_extension ++ lit " extension.".

Definition change_type_reason (rt : interp) (change_type : str)
    (allowed_change_types : gset str) : str :=
  lit "Change type '" ++ change_type
  ++ lit "' doesn't match allowed types: "
  ++ set_str rt allowed_change_types ++ lit ".".

Definition description_reason : str :=
  lit "Doesn't start with a number nor a plus sign.".

Definition capital_reason : str :=
  lit "The first character is not a capital letter.".

Definition full_stop_reason : str :=
  lit "The last character is not a full-stop character.".

(** The last line of both validators:
    [len(error_reasons) == 0, ' / '.join(error_reasons) if error_reasons else ''] *)
Definition verdict (error_reasons : list str) : bool * str :=
  (Nat.eqb (length error_reasons) 0,
   match error_reasons with
   | [] => lit ""
   | _ :: _ => join (lit " / ") error_reasons
   end).

(** ** The validators *)

Definition is_changelog_filename_valid (rt : interp) (filename : str)
    (allowed_change_types : gset str) : outcome (bool * str) :=
  let error_reasons : list str := [] in
  let wanted_extension := lit "md" in
  match rsplit dot 2 filename with
  | [description; change_type; extension] =>
      let error_reasons :=
        if bool_decide (extension ≠ wanted_extension)
        then error_reasons ++ [extension_reason wanted_extension]
        else error_reasons in
      let error_reasons :=
        if bool_decide (change_type ∉ allowed_change_types)
        then error_reasons
             ++ [change_type_reason rt change_type allowed_change_types]
        else error_reasons in
      error_reasons ←
        match py_int rt description with
        | Returned _ => Returned error_reasons
        | Raised ValueError =>
            c ← getitem description 0;
            if bool_decide (c ≠ plus_sign)
            then Returned (error_reasons ++ [description_reason])
            else Returned error_reasons
        | Raised e => Raised e
        end;
      Returned (verdict error_reasons)
  | _ => Returned (false, pattern_reason)
  end.

Definition is_changelog_entry_valid (rt : interp) (file_content : str)
    : outcome (bool * str) :=
  let error_reasons : list str := [] in
  first ← getitem file_content 0;
  let error_reasons :=
    if negb (py_isalpha rt first) || negb (py_isupper rt first)
    then error_reasons ++ [capital_reason]
    else error_reasons in
  last ← getitem (strip file_content) (-1);
  let error_reasons :=
    if bool_decide (last ≠ dot)
    then error_reasons ++ [full_stop_reason]
    else error_reasons in
  Returned (verdict error_reasons).

(** ** An interpreter to run examples with

    Exact on code points below 256 (Latin-1); no letters or digits are
    known above. Sets are printed in the order of [elements], each member
    between single quotes. *)
Definition latin1_isalpha (c : N) : bool :=
  (c =? 170) || (c =? 181) || (c =? 186)
  || ((192 <=? c) && (c <=? 214)) || ((216 <=? c) && (c <=? 246))
  || ((248 <=? c) && (c <=? 255)).

Definition latin1_isupper (c : N) : bool :=
  ((192 <=? c) && (c <=? 214)) || ((216 <=? c) && (c <=? 222)).

Definition quoted_set (s : gset str) : str :=
  match elements s with
  | [] => lit "set()"
  | l => lit "{" ++ join (lit ", ") (map (fun x => lit "'" ++ x ++ lit "'") l)
         ++ lit "}"
  end.

Definition latin1 : interp := {|
  uc_isalpha := latin1_isalpha;
  uc_isupper := latin1_isupper;
  uc_todecimal := fun _ => None;
  int_max_str_digits := 4300;
  set_str := quoted_set;
|}.

(** ** Reading a file as text

    [Path.read_text(encoding='utf-8')] decodes the bytes of the file
    strictly and, as every text-mode read, translates the line endings. *)

Definition is_continuation (x : N) : bool := (128 <=? x) && (x <=? 191).

Definition between (lo x hi : N) : bool := (lo <=? x) && (x <=? hi).

Fixpoint utf8_decode (b : bytes) : outcome str :=
  match b with
  | [] => Returned []
  | b0 :: r0 =>
      let x0 := Byte.to_N b0 in
      if x0 <? 128 then
        s ← utf8_decode r0; Returned (x0 :: s)
      else if between 194 x0 223 then
        match r0 with
        | b1 :: r1 =>
            let x1 := Byte.to_N b1 in
            if is_continuation x1 then
              s ← utf8_decode r1;
              Returned (((x0 - 192) * 64 + (x1 - 128)) :: s)
            else Raised UnicodeDecodeError
        | _ => Raised UnicodeDecodeError
        end
      else if between 224 x0 239 then
        match r0 with
        | b1 :: b2 :: r2 =>
            let x1 := Byte.to_N b1 in
            let x2 := Byte.to_N b2 in
            let lo := if x0 =? 224 then 160 else 128 in
            let hi := if x0 =? 237 then 159 else 191 in
            if between lo x1 hi && is_continuation x2 then
              s ← utf8_decode r2;
              Returned (((x0 - 224) * 4096 + (x1 - 128) * 64 + (x2 - 128))
                        :: s)
            else Raised UnicodeDecodeError
        | _ => Raised UnicodeDecodeError
        end
      else if between 240 x0 244 then
        match r0 with
        | b1 :: b2 :: b3 :: r3 =>
            let x1 := Byte.to_N b1 in
            let x2 := Byte.to_N b2 in
            let x3 := Byte.to_N b3 in
            let lo := if x0 =? 240 then 144 else 128 in
            let hi := if x0 =? 244 then 143 else 191 in
            if between lo x1 hi && is_continuation x2 && is_continuation x3
            then
              s ← utf8_decode r3;
              Returned (((x0 - 240) * 262144 + (x1 - 128) * 4096
                         + (x2 - 128) * 64 + (x3 - 128)) :: s)
            else Raised UnicodeDecodeError
        | _ => Raised UnicodeDecodeError
        end
      else Raised UnicodeDecodeError
  end.

(** Universal newlines: a carriage return, with the line feed that may
    follow it, reads as one line feed. *)
Fixpoint translate_newlines (s : str) : str :=
  match s with
  | [] => []
  | c :: s' =>
      if c =? 13 then
        10 :: match s' with
              | d :: s'' =>
                  if d =? 10 then translate_newlines s''
                  else translate_newlines s'
              | [] => []
              end
      else c :: translate_newlines s'
  end.

(** ** The directory scan *)

(** One entry of [changelog.d] that is a file that can be read, as
    [towncrier_check] sees it: its [name], the size [lstat] reports and
    the bytes a read returns. *)
Record path : Type := {
  name : str;
  st_size : N;
  file_bytes : bytes;
}.

Definition read_text (filename : path) : outcome str :=
  s ← utf8_decode (file_bytes filename); Returned (translate_newlines s).

(** The nox session: what was passed to [session.log] so far, oldest
    first. A session command returns or raises, and leaves a log. *)
Definition session (A : Type) : Type := list str → outcome A * list str.

Global Instance session_ret : MRet session := fun _ a log => (Returned a, log).
Global Instance session_bind : MBind session := fun _ _ k m log =>
  match m log with
  | (Returned a, log') => k a log'
  | (Raised e, log') => (Raised e, log')
  end.

Definition session_log (msg : str) : session unit :=
  fun log => (Returned tt, log ++ [msg]).

Definition session_error (msg : str) : session unit :=
  fun log => (Raised (SessionQuit msg), log).

Definition run {A} (m : outcome A) : session A := fun log => (m, log).

Definition expected_non_md_files : gset str := {[ lit ".gitkeep" ]}.

Definition bad_name_log (filename_name error_message : str) : str :=
  lit "File " ++ filename_name
  ++ lit " doesn't match the expected pattern: " ++ error_message.

Definition too_big_log (filename_name : str) : str :=
  lit "File " ++ filename_name ++ lit " content is too big " ++ [en_dash]
  ++ lit " it should be smaller than 16kB.".

Definition not_utf8_log (filename_name : str) : str :=
  lit "File " ++ filename_name ++ lit " is not a valid UTF-8 file.".

Definition bad_entry_log (filename_name error_message : str) : str :=
  lit "File " ++ filename_name
  ++ lit " is not a valid changelog entry: " ++ error_message.

Definition found_errors : str :=
  lit "Found errors in the changelog.d directory. Check logs above for more information".

Section Scan.
Context (rt : interp) (allowed_change_types : gset str).

(** The end of the loop body: the file is read and its text checked. *)
Definition check_text (filename : path) (is_error : bool) : session bool :=
  match read_text filename with
  | Raised UnicodeDecodeError =>
      session_log (not_utf8_log (name filename));; mret true
  | Raised e => run (Raised e)
  | Returned file_content =>
      '(is_valid, error_message) ←
        run (is_changelog_entry_valid rt file_content);
      if negb is_valid then
        session_log (bad_entry_log (name filename) error_message);; mret true
      else mret is_error
  end.

(** The loop body; each [continue] of the source ends a branch. The
    result is the new value of [is_error]. *)
Definition check_file (filename : path) (is_error : bool) : session bool :=
  if bool_decide (name filename ∈ expected_non_md_files) then mret is_error
  else
    '(is_valid, error_message) ←
      run (is_changelog_filename_valid rt (name filename)
             allowed_change_types);
    if negb is_valid then
      session_log (bad_name_log (name filename) error_message);; mret true
    else if 16 * 1024 <? st_size filename then
      session_log (too_big_log (name filename));; mret true
    else check_text filename is_error.

Fixpoint check_files (entries : list path) (is_error : bool)
    : session bool :=
  match entries with
  | [] => mret is_error
  | filename :: rest =>
      is_error ← check_file filename is_error;
      check_files rest is_error
  end.

(** [entries] is what [pathlib.Path('./changelog.d/').glob('*')] yields
    and [allowed_change_types] what [load_allowed_change_types()]
    returned. *)
Definition towncrier_check (entries : list path) : session unit :=
  let is_error := false in
  is_error ← check_files entries is_error;
  if (is_error : bool) then session_error found_errors else mret tt.
End Scan.

(** ** The settings computed when the module is loaded

    [environ] is [os.environ]; [major], [minor] and [implementation] are
    what [platform.python_version_tuple()] and
    [platform.python_implementation()] answer. *)

Definition comma : N := 44.

(** [s.split(sep)] for a one-character separator. *)
Fixpoint split (sep : N) (s : str) : list str :=
  match s with
  | [] => [[]]
  | c :: s' =>
      if c =? sep then [] :: split sep s'
      else match split sep s' with
           | seg :: segs => (c :: seg) :: segs
           | [] => [[c]]
           end
  end.

(** [l[i]] on a list, with Python's negative indices. *)
Definition list_getitem {A} (l : list A) (i : Z) : outcome A :=
  let n := Z.of_nat (length l) in
  let j := if (i <? 0)%Z then (i + n)%Z else i in
  if ((0 <=? j) && (j <? n))%Z
  then match l !! Z.to_nat j with
       | Some x => Returned x
       | None => Raised IndexError
       end
  else Raised IndexError.

(** The truth value of a string that may be [None], and of a list. *)
Definition truthy (s : option str) : bool :=
  match s with
  | Some (_ :: _) => true
  | _ => false
  end.

Definition list_truthy {A} (l : list A) : bool :=
  match l with
  | [] => false
  | _ :: _ => true
  end.

Definition _detect_python_nox_id (major minor implementation : str) : str :=
  let python_nox_id := major ++ lit "." ++ minor in
  if bool_decide (implementation = lit "PyPy")
  then lit "pypy" ++ python_nox_id
  else python_nox_id.

Definition listed_python_versions : list str :=
  [lit "pypy3.9"; lit "pypy3.10"; lit "3.7"; lit "3.8"; lit "3.9";
   lit "3.10"; lit "3.11"; lit "3.12"; lit "3.13"].

Section Settings.
Context (environ : gmap str str) (major minor implementation : str).

Definition CI : bool := bool_decide (environ !! lit "CI" ≠ None).

Definition NOX_PYTHONS : option str := environ !! lit "NOX_PYTHONS".

Definition _NOX_EXTRAS : option str := environ !! lit "NOX_EXTRAS".

Definition NOX_EXTRAS : list (list str) :=
  match _NOX_EXTRAS with
  | None => [[]]
  | Some extras => filter (fun l => list_truthy l = true) [split comma extras]
  end.

Definition PYTHON_VERSIONS : list str :=
  let PYTHON_VERSIONS :=
    match NOX_PYTHONS with
    | None => listed_python_versions
    | Some pythons => split comma pythons
    end in
  if CI && negb (truthy NOX_PYTHONS)
  then [_detect_python_nox_id major minor implementation]
  else PYTHON_VERSIONS.

Definition PYTHON_DEFAULT_VERSION : outcome str :=
  if (1 <? length PYTHON_VERSIONS)%nat
  then list_getitem PYTHON_VERSIONS (-2)
  else list_getitem PYTHON_VERSIONS 0.
End Settings.

(** ** [skip_coverage]

    [str.lower] maps an ASCII letter to its lower case; what it puts for
    the code point at position [i] of [s], when that code point is not
    ASCII, is the table [uc_lower_at s i] of the interpreter (one or more
    code points, and for a capital sigma a matter of its neighbours). *)

Section Lower.
Context (uc_lower_at : str → nat → list N).

Definition lower_at (s : str) (i : nat) (c : N) : list N :=
  if c <? 128 then [if ascii_isupper c then c + 32 else c]
  else uc_lower_at s i.

(** [s.lower()] *)
Definition py_lower (s : str) : str := concat (imap (lower_at s) s).

(** [s.startswith(prefix)] *)
Fixpoint startswith (s prefix : str) {struct prefix} : bool :=
  match prefix with
  | [] => true
  | x :: prefix' =>
      match s with
      | [] => false
      | y :: s' => (y =? x) && startswith s' prefix'
      end
  end.

Definition skip_coverage (implementation : str) (python_version : option str)
    : bool :=
  let chosen :=
    if truthy python_version
    then match python_version with Some v => v | None => [] end
    else implementation in
  startswith (py_lower chosen) (lit "pypy").
End Lower.

(** ** Sessions that run commands

    What a session does to the outside is kept as a list of events, oldest
    first. What the outside answers is the [world]: whether a command
    given to [session.run] succeeds, and what [subprocess.check_output]
    returns for a command ([None] when the command fails). *)

Inductive event : Type :=
  | Ran (external : bool) (args : list str)
  | Logged (msg : str)
  | Notified (target : str)
  | Appended (file text : str).

Inductive failure : Type :=
  | Python (e : exn)
  | CommandFailed (args : list str)
  | CalledProcessError (args : list str)
  | KeyError (key : str)
  | OSError (file : str)
  | UnicodeEncodeError (text : str).

Inductive result (A : Type) : Type :=
  | Done (a : A)
  | Failed (f : failure).

Arguments Done {A} a.
Arguments Failed {A} f.

Record world : Type := {
  command_succeeds : list str → bool;
  check_output : list str → option bytes;
}.

Definition nox (A : Type) : Type := list event → result A * list event.

Global Instance nox_ret : MRet nox := fun _ a trace => (Done a, trace).
Global Instance nox_bind : MBind nox := fun _ _ k m trace =>
  match m trace with
  | (Done a, trace') => k a trace'
  | (Failed f, trace') => (Failed f, trace')
  end.

(** [session.run] with the given arguments and [external] flag. *)
Definition nox_run (w : world) (external : bool) (args : list str)
    : nox unit :=
  fun trace =>
    (if command_succeeds w args then Done tt else Failed (CommandFailed args),
     trace ++ [Ran external args]).

Definition nox_log (msg : str) : nox unit :=
  fun trace => (Done tt, trace ++ [Logged msg]).

Definition nox_notify (target : str) : nox unit :=
  fun trace => (Done tt, trace ++ [Notified target]).

Definition nox_error {A} (msg : str) : nox A :=
  fun trace => (Failed (Python (SessionQuit msg)), trace).




Definition nox_check_output (w : world) (args : list str) : nox bytes :=
  fun trace =>
    (match check_output w args with
     | Some out => Done out
     | None => Failed (CalledProcessError args)
     end, trace).

Definition nox_eval {A} (m : outcome A) : nox A :=
  fun trace =>
    (match m with
     | Returned a => Done a
     | Raised e => Failed (Python e)
     end, trace).


Definition pdm_install (w : world) (dev : bool) (args : list str)
    : nox unit :=
  let prod_args := if dev then [] else [lit "--prod"] in
  let group_args :=
    fold_left (fun group_args group => group_args ++ [lit "--group"; group])
      args [] in
  nox_run w true ([lit "pdm"; lit "install"] ++ prod_args ++ group_args).

Definition pytest_command (api : string) (args posargs : list str)
    : list str :=
  [lit "pytest"; lit api] ++ args ++ posargs ++ [lit "test/unit"].

(** The session [unit]; [python] is [session.python]. *)
Definition unit_ (uc : str → nat → list N) (w : world) (implementation : str)
    (python : option str) (posargs extras : list str) : nox unit :=
  pdm_install w true (lit "test" :: extras);;
  let args := [lit "--doctest-modules"; lit "-n"; lit "auto"] in
  let args :=
    if negb (skip_coverage uc implementation python)
    then args ++ [lit "--cov=b2sdk"; lit "--cov-branch";
                  lit "--cov-report=xml"]
    else args in
  nox_run w false (pytest_command "--api=v3" args posargs);;
  let args :=
    if negb (skip_coverage uc implementation python)
    then args ++ [lit "--cov-append"]
    else args in
  nox_run w false (pytest_command "--api=v2" args posargs);;
  nox_run w false (pytest_command "--api=v1" args posargs);;
  nox_run w false (pytest_command "--api=v0" args posargs);;
  if negb (skip_coverage uc implementation python)
     && negb (list_truthy posargs)
  then nox_notify (lit "cover")
  else mret tt.

(** [re.match(r'^\d+\.\d+\.\d+$', version)]. A digit is a decimal digit of
    any script; a run of digits is read to its end, which loses no match
    since what follows a run in the pattern is never a digit; the dollar
    holds at the end of the string and before a line feed that ends it. *)
Section Version.
Context (rt : interp).

Definition re_digit (c : N) : bool :=
  match py_todecimal rt c with
  | Some _ => true
  | None => false
  end.

Fixpoint re_digits (s : str) : str :=
  match s with
  | [] => []
  | c :: s' => if re_digit c then re_digits s' else s
  end.

Definition re_digits1 (s : str) : option str :=
  match s with
  | [] => None
  | c :: s' => if re_digit c then Some (re_digits s') else None
  end.

Definition re_char (x : N) (s : str) : option str :=
  match s with
  | [] => None
  | c :: s' => if c =? x then Some s' else None
  end.

Definition re_dollar (s : str) : bool :=
  match s with
  | [] => true
  | [c] => c =? 10
  | _ => false
  end.

Definition version_re_match (version : str) : bool :=
  match (s ← re_digits1 version; s ← re_char dot s; s ← re_digits1 s;
         s ← re_char dot s; re_digits1 s) with
  | Some rest => re_dollar rest
  | None => false
  end.
End Version.

Definition git_diff_stat : list str := [lit "git"; lit "diff"; lit "--stat"].

Definition git_current_branch : list str :=
  [lit "git"; lit "rev-parse"; lit "--abbrev-ref"; lit "HEAD"].

Definition towncrier_build (version : str) : list str :=
  [lit "towncrier"; lit "build"; lit "--yes"; lit "--version"; version].

Definition usage_error : str :=
  lit "Provide -- {release_version} (X.Y.Z - without leading "
  ++ [double_quote] ++ lit "v" ++ [double_quote] ++ lit ")".

Definition version_error (version : str) : str :=
  lit "Provided version=" ++ [double_quote] ++ version ++ [double_quote]
  ++ lit ". Version must be of the form X.Y.Z where X, Y and Z are integers".

Definition branch_warning : str :=
  lit "WARNING: releasing from a branch different than master".

Definition newline : str := [10].

Definition release_message (version current_branch : str) : str :=
  lit "CHANGELOG updated, changes ready to commit and push" ++ newline
  ++ lit "    git remote add upstream 'git@github.com:Backblaze/b2-sdk-python.git' 2>/dev/null || git remote get-url upstream"
  ++ newline
  ++ lit "    git commit -m " ++ [double_quote] ++ lit "release " ++ version
  ++ [double_quote] ++ newline
  ++ lit "    git push upstream " ++ current_branch ++ newline
  ++ lit "Wait for a CI workflow to complete successfully, before triggering CD by pushing a tag."
  ++ newline
  ++ lit "    git tag v" ++ version ++ newline
  ++ lit "    git push upstream v" ++ version ++ newline
  ++ lit "Wait for a CD workflow to complete successfully, indicates the release is done.".

(** The session [make_release_commit]; [posargs] is [session.posargs]. *)
Definition make_release_commit (rt : interp) (w : world)
    (posargs : list str) : nox unit :=
  version ← match posargs with
            | version :: _ => mret version
            | [] => nox_error usage_error
            end;
  (if negb (version_re_match rt version)
   then nox_error (version_error version) else mret tt);;
  local_changes ← nox_check_output w git_diff_stat;
  (if list_truthy local_changes
   then nox_error (lit "Uncommitted changes detected") else mret tt);;
  raw ← nox_check_output w git_current_branch;
  current_branch ← nox_eval (utf8_decode raw);
  (if bool_decide (current_branch ≠ lit "master")
   then nox_log branch_warning else mret tt);;
  pdm_install w true [lit "release"];;
  nox_run w false (towncrier_build version);;
  nox_log (release_message version current_branch).




(** ** Vocabulary of the statements *)

(** [s.count(c)] *)
Fixpoint count (c : N) (s : str) : nat :=
  match s with
  | [] => 0
  | x :: s' => (if x =? c then 1 else 0) + count c s'
  end.

(** The reasons of the three checks that follow a successful split. *)
Definition extension_reasons (extension : str) : list str :=
  if bool_decide (extension ≠ lit "md") then [extension_reason (lit "md")]
  else [].

Definition change_type_reasons (rt : interp) (change_type : str)
    (allowed_change_types : gset str) : list str :=
  if bool_decide (change_type ∉ allowed_change_types)
  then [change_type_reason rt change_type allowed_change_types]
  else [].

(** The description passes: [int] reads it, or it starts with a plus. *)
Definition description_passes (rt : interp) (description : str) : bool :=
  match py_int rt description with
  | Returned _ => true
  | Raised _ => bool_decide (head description = Some plus_sign)
  end.

Definition description_reasons (rt : interp) (description : str)
    : list str :=
  if description_passes rt description then [] else [description_reason].

(** The description pattern in the words of the specification: "either a
    non-negative integer or a string beginning with [+]". *)
Definition spec_non_negative_integer (description : str) : bool :=
  match description with
  | [] => false
  | _ :: _ => forallb (fun c => (48 <=? c) && (c <=? 57)) description
  end.

Definition spec_description_ok (description : str) : bool :=
  spec_non_negative_integer description
  || match description with
     | c :: _ => c =? plus_sign
     | [] => false
     end.

(** The reasons of the two content checks, from the first character of
    the content and the last character of the stripped content. *)
Definition capital_reasons (rt : interp) (first : N) : list str :=
  if negb (py_isalpha rt first) || negb (py_isupper rt first)
  then [capital_reason] else [].

Definition full_stop_reasons (last : N) : list str :=
  if bool_decide (last ≠ dot) then [full_stop_reason] else [].

(** Data for the examples. *)
Definition fixed_only : gset str := {[ lit "fixed" ]}.

Definition ascii_bytes (s : string) : bytes := list_byte_of_string s.

(** A file of 16385 bytes that are not UTF-8, and a file of exactly 16384
    bytes that holds a valid entry followed by line feeds. *)
Definition big_bad_entry : path :=
  {| name := lit "1.fixed.md"; st_size := 16385;
     file_bytes := repeat "255"%byte (N.to_nat 16385) |}.

Definition full_good_entry : path :=
  {| name := lit "1.fixed.md"; st_size := 16384;
     file_bytes := ascii_bytes "Fixed." ++ repeat "010"%byte (N.to_nat 16378) |}.

(** The lower case of an ASCII letter; every other code point is kept. *)
Definition ascii_lower (c : N) : N := if ascii_isupper c then c + 32 else c.

(** An ASCII decimal digit. *)
Definition ascii_digit (c : N) : bool := (48 <=? c) && (c <=? 57).


(** A world where every command succeeds, the working tree is clean and
    git prints the branch [master], followed as always by a line feed. *)
Definition quiet_world : world :=
  {| command_succeeds := fun _ => true;
     check_output := fun args =>
       if bool_decide (args = git_diff_stat) then Some []
       else Some (list_byte_of_string "master" ++ ["010"%byte]) |}.

(** What the loop body does with one file scanned on its own, from a
    clear flag and an empty log: whether it marks the run as failed, and
    the lines it logs. *)
Definition file_failed (rt : interp) (allowed_change_types : gset str)
    (filename : path) : bool :=
  match fst (check_file rt allowed_change_types filename false []) with
  | Returned failed => failed
  | Raised _ => false
  end.

Definition file_lines (rt : interp) (allowed_change_types : gset str)
    (filename : path) : list str :=
  snd (check_file rt allowed_change_types filename false []).

(** * Properties *)

(** ** Splitting *)

Lemma rpartition_None sep s :
  rpartition sep s = None ↔ sep ∉ s.
Proof.
  induction s as [|c s IH]; simpl.
  - split; [intros _; apply not_elem_of_nil | done].
  - destruct (rpartition sep s) as [[a b]|].
    + split; [done|]. intros Hc. exfalso.
      destruct IH as [_ IH]. 
      assert (sep ∉ s) as Hs by (intros ?; apply Hc; by right).
      specialize (IH Hs). discriminate.
    + destruct (N.eqb_spec c sep) as [->|Hne].
      * split; [done|]. intros Hc. exfalso. apply Hc. by left.
      * split; [|done]. intros _ [->|Hin]%elem_of_cons; [done|].
        by apply IH.
Qed.

Lemma rpartition_Some sep s a b :
  rpartition sep s = Some (a, b) → s = a ++ sep :: b ∧ sep ∉ b.
Proof.
  revert a b. induction s as [|c s IH]; intros a b; simpl; [done|].
  destruct (rpartition sep s) as [[a' b']|] eqn:Hs.
  - intros [= <- <-]. destruct (IH _ _ eq_refl) as [-> Hb]. done.
  - destruct (N.eqb_spec c sep) as [->|Hne]; [|done].
    intros [= <- <-]. split; [done|]. by apply rpartition_None.
Qed.

Lemma rpartition_app sep a b :
  sep ∉ b → rpartition sep (a ++ sep :: b) = Some (a, b).
Proof.
  intros Hb. induction a as [|c a IH]; simpl.
  - apply rpartition_None in Hb. rewrite Hb. by rewrite N.eqb_refl.
  - by rewrite IH.
Qed.

Lemma count_app c s1 s2 : count c (s1 ++ s2) = (count c s1 + count c s2)%nat.
Proof. induction s1 as [|x s1 IH]; simpl; [done|]. rewrite IH. lia. Qed.

Lemma rsplit_length sep k s :
  (length (rsplit sep k s) ≤ S (count sep s))%nat.
Proof.
  revert s. induction k as [|k IH]; intros s; simpl; [lia|].
  destruct (rpartition sep s) as [[a b]|] eqn:Hs; simpl; [|lia].
  apply rpartition_Some in Hs as [-> _].
  rewrite length_app, count_app. simpl. rewrite N.eqb_refl.
  specialize (IH a). lia.
Qed.

(** The shape [rsplit] gives a name made of a description, a change type
    without a dot and an extension without a dot. *)
Lemma rsplit_three d t e :
  dot ∉ t → dot ∉ e →
  rsplit dot 2 (d ++ dot :: t ++ dot :: e) = [d; t; e].
Proof.
  intros Ht He. simpl.
  replace (d ++ dot :: t ++ dot :: e) with ((d ++ dot :: t) ++ dot :: e)
    by (by rewrite <- app_assoc).
  rewrite (rpartition_app _ _ _ He), (rpartition_app _ _ _ Ht). done.
Qed.

(** ** Built-ins *)

Lemma py_int_raises rt s e : py_int rt s = Raised e → e = ValueError.
Proof.
  unfold py_int.
  repeat (match goal with
          | |- context [match ?x with _ => _ end] => destruct x
          end; try congruence).
Qed.

Lemma getitem_first c s : getitem (c :: s) 0 = Returned c.
Proof.
  unfold getitem. cbn [length Z.ltb Z.compare].
  replace ((0 <=? 0) && (0 <? Z.of_nat (S (length s))))%Z with true; [done|].
  symmetry. apply andb_true_iff. split; [done|]. apply Z.ltb_lt. lia.
Qed.

Lemma getitem_empty i : getitem [] i = Raised IndexError.
Proof.
  unfold getitem. cbn [length Z.of_nat].
  destruct (_ && _)%Z eqn:H; [|done]. exfalso.
  apply andb_true_iff in H as [H1 H2].
  apply Z.leb_le in H1. apply Z.ltb_lt in H2. lia.
Qed.

Lemma join_nil_inv sep l :
  l ≠ [] → Forall (fun x => x ≠ []) l → join sep l ≠ [].
Proof.
  intros Hl Hne. destruct l as [|x l]; [done|].
  apply Forall_cons in Hne as [Hx _].
  simpl. destruct l; [done|]. destruct x; done.
Qed.

(** ** The verdict *)

Lemma verdict_nil : verdict [] = (true, lit "").
Proof. done. Qed.

Lemma verdict_invariant reasons :
  Forall (fun x => x ≠ []) reasons →
  snd (verdict reasons) = [] ↔ fst (verdict reasons) = true.
Proof.
  intros Hne. destruct reasons as [|x l]; [done|].
  unfold verdict. cbn [fst snd length Nat.eqb]. split; [|done].
  intros H. exfalso. revert H. by apply join_nil_inv.
Qed.

(** ** The file name validator, case by case *)

(** Fewer than three segments: the early return. *)
Lemma filename_valid_no_split rt filename allowed :
  length (rsplit dot 2 filename) ≠ 3%nat →
  is_changelog_filename_valid rt filename allowed
  = Returned (false, pattern_reason).
Proof.
  intros Hlen. unfold is_changelog_filename_valid.
  destruct (rsplit dot 2 filename) as [|x [|y [|z [|w l]]]]; done.
Qed.

(** Three segments, the first of them empty: the description check
    raises. *)
Lemma filename_valid_empty_description rt filename allowed c e :
  rsplit dot 2 filename = [[]; c; e] →
  is_changelog_filename_valid rt filename allowed = Raised IndexError.
Proof.
  intros Hsplit. unfold is_changelog_filename_valid. rewrite Hsplit.
  assert (py_int rt [] = Raised ValueError) as -> by done.
  by rewrite getitem_empty.
Qed.

(** Three segments and a description that is not empty: every check
    contributes its reasons, in the order of the checks. *)
Lemma filename_valid_split rt filename allowed d c e :
  rsplit dot 2 filename = [d; c; e] → d ≠ [] →
  is_changelog_filename_valid rt filename allowed
  = Returned (verdict (extension_reasons e
                       ++ change_type_reasons rt c allowed
                       ++ description_reasons rt d)).
Proof.
  intros Hsplit Hd. unfold is_changelog_filename_valid. rewrite Hsplit.
  unfold extension_reasons, change_type_reasons, description_reasons,
    description_passes.
  destruct d as [|c0 d]; [done|].
  destruct (py_int rt (c0 :: d)) as [z|ex] eqn:Hint.
  - simpl. rewrite app_nil_r.
    destruct (bool_decide (e ≠ lit "md")), (bool_decide (c ∉ allowed)); done.
  - apply py_int_raises in Hint as ->. rewrite getitem_first.
    cbn [head mbind outcome_bind].
    destruct (decide (c0 = plus_sign)) as [->|Hne].
    + rewrite bool_decide_eq_false_2 by (intros H; by apply H).
      rewrite (bool_decide_eq_true_2 (Some plus_sign = Some plus_sign)) by done.
      rewrite app_nil_r.
      destruct (bool_decide (e ≠ lit "md")), (bool_decide (c ∉ allowed)); done.
    + rewrite (bool_decide_eq_true_2 (c0 ≠ plus_sign)) by done.
      rewrite (bool_decide_eq_false_2 (Some c0 = Some plus_sign)) by congruence.
      destruct (bool_decide (e ≠ lit "md")), (bool_decide (c ∉ allowed)); done.
Qed.

Lemma filename_reasons_not_empty rt allowed d c e :
  Forall (fun x : str => x ≠ [])
    (extension_reasons e ++ change_type_reasons rt c allowed
     ++ description_reasons rt d).
Proof.
  unfold extension_reasons, change_type_reasons, description_reasons.
  repeat apply Forall_app_2;
    match goal with
    | |- context [if ?b then _ else _] => destruct b
    end; repeat constructor; done.
Qed.

(** ** The content validator, case by case *)

Lemma getitem_last s c : getitem (s ++ [c]) (-1) = Returned c.
Proof.
  unfold getitem. rewrite length_app. cbn [length Z.ltb Z.compare].
  replace (-1 + Z.of_nat (length s + 1))%Z with (Z.of_nat (length s)) by lia.
  replace ((0 <=? Z.of_nat (length s))
           && (Z.of_nat (length s) <? Z.of_nat (length s + 1)))%Z with true.
  - rewrite Nat2Z.id. by rewrite list_lookup_middle.
  - symmetry. apply andb_true_iff.
    split; [apply Z.leb_le | apply Z.ltb_lt]; lia.
Qed.

Lemma lstrip_blank s : forallb py_isspace s = true → lstrip s = [].
Proof.
  induction s as [|c s IH]; simpl; [done|].
  intros [-> Hs]%andb_true_iff. by apply IH.
Qed.

Lemma strip_blank s : forallb py_isspace s = true → strip s = [].
Proof. intros Hs. unfold strip. by rewrite lstrip_blank. Qed.

Lemma entry_valid_empty rt :
  is_changelog_entry_valid rt [] = Raised IndexError.
Proof. done. Qed.

(** Content made of white space only: the first check runs, the second
    one raises. *)
Lemma entry_valid_blank rt content :
  forallb py_isspace content = true →
  is_changelog_entry_valid rt content = Raised IndexError.
Proof.
  intros Hs. unfold is_changelog_entry_valid.
  destruct content as [|c s]; [done|].
  rewrite getitem_first, strip_blank by done. done.
Qed.

(** Content whose stripped form is not empty: both checks contribute. *)
Lemma entry_valid_split rt first rest body last :
  strip (first :: rest) = body ++ [last] →
  is_changelog_entry_valid rt (first :: rest)
  = Returned (verdict (capital_reasons rt first ++ full_stop_reasons last)).
Proof.
  intros Hstrip. unfold is_changelog_entry_valid.
  rewrite getitem_first, Hstrip, getitem_last.
  unfold capital_reasons, full_stop_reasons. cbn [mbind outcome_bind].
  destruct (negb (py_isalpha rt first) || negb (py_isupper rt first)),
    (bool_decide (last ≠ dot)); done.
Qed.

Lemma entry_reasons_not_empty rt first last :
  Forall (fun x : str => x ≠ [])
    (capital_reasons rt first ++ full_stop_reasons last).
Proof.
  unfold capital_reasons, full_stop_reasons.
  apply Forall_app_2;
    match goal with
    | |- context [if ?b then _ else _] => destruct b
    end; repeat constructor; done.
Qed.

(** A list is empty or ends with some element. *)
Lemma list_end (s : str) : s = [] ∨ ∃ body last, s = body ++ [last].
Proof.
  induction s as [|c s [->|(body & last & ->)]] using rev_ind; eauto.
Qed.

(** * The claims *)

(** ** File names *)

(** C4. A file name with fewer than two dots does not split into three
    segments: whatever the allow-list, the validator returns invalid with
    the pattern reason as its only reason; no later check adds to it, so a
    change type outside the allow-list is not reported. *)
Theorem too_few_dots_pattern_reason_only rt filename allowed :
  (count dot filename < 2)%nat →
  is_changelog_filename_valid rt filename allowed
  = Returned (false, pattern_reason).
Proof.
  intros Hdots. apply filename_valid_no_split.
  pose proof (rsplit_length dot 2 filename). lia.
Qed.

Lemma too_few_dots_pattern_reason_only_witness :
  is_changelog_filename_valid latin1 (lit "12.unknown") fixed_only
  = Returned (false, pattern_reason).
Proof.
  apply (too_few_dots_pattern_reason_only latin1 (lit "12.unknown")).
  vm_compute. lia.
Defined.

(** C3, as the code has it. For every allow-list [T], every change type
    [t] of [T] that contains no dot, and every description [d] that [int]
    reads or that begins with a plus sign, the name [d.t.md] is valid and
    the reason string is empty. *)
Theorem well_formed_name_valid (rt : interp) (allowed : gset str) (t d : str) :
  t ∈ allowed → dot ∉ t →
  returns (py_int rt d) ∨ head d = Some plus_sign →
  is_changelog_filename_valid rt (d ++ lit "." ++ t ++ lit ".md") allowed
  = Returned (true, lit "").
Proof.
  intros Ht Hdot Hd.
  assert (dot ∉ lit "md") as Hmd.
  { intros H. repeat (apply elem_of_cons in H as [H|H]; [discriminate|]).
    by apply elem_of_nil in H. }
  assert (d ≠ []) as Hne.
  { intros ->. destruct Hd as [[z Hz]|Hz]; discriminate. }
  rewrite (filename_valid_split rt _ allowed d t (lit "md"));
    [|exact (rsplit_three d t (lit "md") Hdot Hmd) | done].
  unfold extension_reasons, change_type_reasons, description_reasons,
    description_passes.
  rewrite (bool_decide_eq_false_2 (lit "md" ≠ lit "md")) by (intros H; by apply H).
  rewrite (bool_decide_eq_false_2 (t ∉ allowed)) by (intros H; by apply H).
  destruct Hd as [[z ->]|Hplus]; [done|].
  rewrite (bool_decide_eq_true_2 _ Hplus).
  by destruct (py_int rt d).
Qed.

Lemma well_formed_name_valid_witness :
  is_changelog_filename_valid latin1
    (lit "+typo" ++ lit "." ++ lit "fixed" ++ lit ".md") fixed_only
  = Returned (true, lit "").
Proof.
  apply (well_formed_name_valid latin1 fixed_only (lit "fixed") (lit "+typo")).
  - apply elem_of_singleton. reflexivity.
  - intros H. repeat (apply elem_of_cons in H as [H|H]; [discriminate|]).
    by apply elem_of_nil in H.
  - right. reflexivity.
Defined.

(** C3 as stated fails: a change type of the allow-list that contains a
    dot is cut by the split. In [1.a.b.md] the change type read is [b] and
    the description read is [1.a]: the name is rejected for both. *)
Lemma dotted_change_type_rejected :
  let allowed : gset str := {[ lit "a.b" ]} in
  allowed ≠ ∅ ∧ lit "a.b" ∈ allowed ∧ py_int latin1 (lit "1") = Returned 1%Z
  ∧ is_changelog_filename_valid latin1
      (lit "1" ++ lit "." ++ lit "a.b" ++ lit ".md") allowed
    = Returned (false,
        lit "Change type 'b' doesn't match allowed types: {'a.b'}. / Doesn't start with a number nor a plus sign.").
Proof.
  cbv zeta. split; [|split; [|split]].
  - intros H. apply (f_equal (fun s : gset str => bool_decide (lit "a.b" ∈ s))) in H.
    vm_compute in H. discriminate.
  - apply elem_of_singleton. reflexivity.
  - reflexivity.
  - vm_compute. reflexivity.
Qed.





(** C9. A file name that splits into three segments with an empty
    description, such as [.fixed.md], gets no (valid, reason) result:
    [int] rejects the empty description, the handler then reads its first
    character, and the [IndexError] leaves the validator. *)
Theorem empty_description_index_error (rt : interp) (allowed : gset str)
    (filename c e : str) :
  rsplit dot 2 filename = [[]; c; e] →
  py_int rt [] = Raised ValueError
  ∧ getitem [] 0 = Raised IndexError
  ∧ is_changelog_filename_valid rt filename allowed = Raised IndexError.
Proof.
  intros Hsplit. repeat split; [done..|].
  by apply (filename_valid_empty_description rt filename allowed c e).
Qed.

Lemma empty_description_index_error_witness :
  rsplit dot 2 (lit ".fixed.md") = [lit ""; lit "fixed"; lit "md"]
  ∧ is_changelog_filename_valid latin1 (lit ".fixed.md") fixed_only
    = Raised IndexError.
Proof.
  split; [reflexivity|].
  apply (empty_description_index_error latin1 fixed_only (lit ".fixed.md")
           (lit "fixed") (lit "md")).
  reflexivity.
Defined.

(** C5, where the code departs from it. [.feature.txt] splits into three
    segments; the extension check and the change-type check each have a
    reason to report, and the description is neither a number nor starts
    with a plus sign. The validator reports none of this: it raises. *)
Theorem reasons_lost_on_empty_description :
  rsplit dot 2 (lit ".feature.txt") = [lit ""; lit "feature"; lit "txt"]
  ∧ extension_reasons (lit "txt") = [extension_reason (lit "md")]
  ∧ change_type_reasons latin1 (lit "feature") fixed_only
    = [change_type_reason latin1 (lit "feature") fixed_only]
  ∧ spec_description_ok (lit "") = false
  ∧ is_changelog_filename_valid latin1 (lit ".feature.txt") fixed_only
    = Raised IndexError.
Proof. repeat split; vm_compute; reflexivity. Qed.

(** ** Content *)

(** C1, where the code departs from it. Nothing guards the read of the
    first character: on the empty string the content validator raises
    [IndexError] and returns no (valid, reason) pair. *)
Theorem empty_content_index_error (rt : interp) :
  getitem (lit "") 0 = Raised IndexError
  ∧ is_changelog_entry_valid rt (lit "") = Raised IndexError.
Proof. split; reflexivity. Qed.

(** C10. Content that is not empty and made of white space only, such as
    three blanks, gets no (valid, reason) result: the first character is
    read and checked, the stripped content is empty, and reading its last
    character raises [IndexError]. *)
Theorem blank_content_index_error (rt : interp) (content : str) :
  content ≠ [] → forallb py_isspace content = true →
  (∃ first, getitem content 0 = Returned first ∧ py_isspace first = true)
  ∧ strip content = []
  ∧ getitem (strip content) (-1) = Raised IndexError
  ∧ is_changelog_entry_valid rt content = Raised IndexError.
Proof.
  intros Hne Hblank. split; [|split; [|split]].
  - destruct content as [|c s]; [done|]. exists c.
    split; [apply getitem_first|].
    simpl in Hblank. by apply andb_true_iff in Hblank as [? _].
  - by apply strip_blank.
  - rewrite strip_blank by done. apply getitem_empty.
  - by apply entry_valid_blank.
Qed.

Lemma blank_content_index_error_witness :
  capital_reasons latin1 32 = [capital_reason]
  ∧ (∃ first, getitem (lit "   ") 0 = Returned first
              ∧ py_isspace first = true)
  ∧ strip (lit "   ") = []
  ∧ getitem (strip (lit "   ")) (-1) = Raised IndexError
  ∧ is_changelog_entry_valid latin1 (lit "   ") = Raised IndexError.
Proof.
  split; [reflexivity|].
  apply (blank_content_index_error latin1 (lit "   ")).
  - discriminate.
  - reflexivity.
Defined.

(** ** Both validators *)

(** C6. Whenever a validator returns, the reason string it returns is
    empty if and only if the flag it returns is true. *)
Theorem reason_empty_iff_valid (rt : interp) (v : bool) (r : str) :
  (∀ filename allowed,
     is_changelog_filename_valid rt filename allowed = Returned (v, r) →
     r = [] ↔ v = true)
  ∧ (∀ content,
       is_changelog_entry_valid rt content = Returned (v, r) →
       r = [] ↔ v = true).
Proof.
  split.
  - intros filename allowed H.
    destruct (decide (length (rsplit dot 2 filename) = 3%nat)) as [Hlen|Hlen].
    + destruct (rsplit dot 2 filename) as [|d [|c [|e [|? ?]]]] eqn:Hs;
        try discriminate Hlen.
      destruct d as [|c0 d].
      * rewrite (filename_valid_empty_description _ _ _ _ _ Hs) in H.
        discriminate.
      * rewrite (filename_valid_split _ _ _ _ _ _ Hs) in H by done.
        pose proof (verdict_invariant _
          (filename_reasons_not_empty rt allowed (c0 :: d) c e)) as Hv.
        replace (verdict _) with (v, r) in Hv by congruence. exact Hv.
    + rewrite filename_valid_no_split in H by done.
      injection H as <- <-. done.
  - intros content H. destruct content as [|c s]; [discriminate|].
    destruct (list_end (strip (c :: s))) as [Hs|(body & last & Hs)].
    + unfold is_changelog_entry_valid in H.
      rewrite getitem_first, Hs in H. discriminate.
    + rewrite (entry_valid_split _ _ _ _ _ Hs) in H.
      pose proof (verdict_invariant _
        (entry_reasons_not_empty rt c last)) as Hv.
      replace (verdict _) with (v, r) in Hv by congruence. exact Hv.
Qed.

Lemma reason_empty_iff_valid_witness :
  is_changelog_filename_valid latin1 (lit "7.fixed.md") fixed_only
  = Returned (true, lit "")
  ∧ is_changelog_entry_valid latin1 (lit "hello.")
    = Returned (false, capital_reason)
  ∧ (lit "" = [] ↔ true = true)
  ∧ (capital_reason = [] ↔ false = true).
Proof.
  split; [reflexivity|]. split; [reflexivity|]. split.
  - apply (proj1 (reason_empty_iff_valid latin1 true (lit ""))
             (lit "7.fixed.md") fixed_only).
    reflexivity.
  - apply (proj2 (reason_empty_iff_valid latin1 false capital_reason)
             (lit "hello.")).
    reflexivity.
Defined.

(** ** The directory scan *)

(** The loop body on the placeholder: nothing is validated, nothing is
    logged, the flag is unchanged. *)
Lemma check_file_placeholder rt allowed filename is_error log :
  name filename ∈ expected_non_md_files →
  check_file rt allowed filename is_error log = (Returned is_error, log).
Proof.
  intros Hin. unfold check_file. by rewrite bool_decide_eq_true_2.
Qed.

(** The loop body on a name the validator rejects. *)
Lemma check_file_bad_name rt allowed filename is_error log reason :
  name filename ∉ expected_non_md_files →
  is_changelog_filename_valid rt (name filename) allowed
  = Returned (false, reason) →
  check_file rt allowed filename is_error log
  = (Returned true, log ++ [bad_name_log (name filename) reason]).
Proof.
  intros Hnot Hname. unfold check_file.
  rewrite bool_decide_eq_false_2 by done.
  unfold mbind, session_bind, run. by rewrite Hname.
Qed.

(** The loop body when a validator raises: the exception leaves the loop
    body, and nothing is logged for the file. *)
Lemma check_file_name_raises rt allowed filename is_error log e :
  name filename ∉ expected_non_md_files →
  is_changelog_filename_valid rt (name filename) allowed = Raised e →
  check_file rt allowed filename is_error log = (Raised e, log).
Proof.
  intros Hnot Hname. unfold check_file.
  rewrite bool_decide_eq_false_2 by done.
  unfold mbind, session_bind, run. by rewrite Hname.
Qed.

(** The loop body neither reads the flag nor the log: it adds its lines
    to the log and, when it returns, raises the flag or leaves it. *)
Lemma check_file_frame rt allowed filename is_error log :
  check_file rt allowed filename is_error log
  = match check_file rt allowed filename false [] with
    | (Returned failed, lines) => (Returned (is_error || failed), log ++ lines)
    | (Raised e, lines) => (Raised e, log ++ lines)
    end.
Proof.
  unfold check_file, check_text, session_log, run.
  unfold mbind, session_bind, mret, session_ret.
  repeat (match goal with
          | |- context [match ?x with _ => _ end] =>
              lazymatch x with
              | context [match _ with _ => _ end] => fail
              | _ => destruct x
              end
          end; cbn [negb fst snd]);
    rewrite ?app_nil_r, ?orb_true_r, ?orb_false_r; reflexivity.
Qed.

(** As long as the loop body returns on every file, the scan visits them
    all: every file adds its lines, and the flag ends up raised exactly
    when some file raised it. *)
Lemma check_files_all_return rt allowed entries is_error log :
  Forall (fun f => returns (fst (check_file rt allowed f false []))) entries →
  check_files rt allowed entries is_error log
  = (Returned (is_error || existsb (file_failed rt allowed) entries),
     log ++ concat (map (file_lines rt allowed) entries)).
Proof.
  intros Hall. revert is_error log.
  induction Hall as [|f entries [failed Hf] _ IH]; intros is_error log.
  - cbn. by rewrite orb_false_r, app_nil_r.
  - cbn [check_files map concat existsb]. unfold mbind, session_bind.
    rewrite check_file_frame. unfold file_failed, file_lines.
    destruct (check_file rt allowed f false []) as [o lines].
    cbn [fst snd] in *. subst o.
    rewrite IH. by rewrite orb_assoc, app_assoc.
Qed.

(** Then the run succeeds exactly when no file failed; otherwise it ends
    with the session error, after the lines of all the files. *)
Lemma towncrier_check_all_return rt allowed entries :
  Forall (fun f => returns (fst (check_file rt allowed f false []))) entries →
  towncrier_check rt allowed entries []
  = (if existsb (file_failed rt allowed) entries
     then Raised (SessionQuit found_errors) else Returned tt,
     concat (map (file_lines rt allowed) entries)).
Proof.
  intros Hall. unfold towncrier_check, mbind, session_bind.
  rewrite (check_files_all_return _ _ _ _ _ Hall). cbn [orb app].
  by destruct (existsb _ _).
Qed.

(** C7, as the code has it. A file that is not the placeholder, whose
    name the validator accepts and whose size exceeds 16384 bytes is
    rejected with the line about its size, and this outcome does not
    mention the bytes of the file: they are neither decoded nor checked.
    With a size of at most 16384 bytes, 16384 included, the size check
    lets the file through to the reading of its text. *)
Theorem size_gate (rt : interp) (allowed : gset str) (filename : path)
    (is_error : bool) (log : list str) (reason : str) :
  name filename ∉ expected_non_md_files →
  is_changelog_filename_valid rt (name filename) allowed
  = Returned (true, reason) →
  (16384 < st_size filename →
   check_file rt allowed filename is_error log
   = (Returned true, log ++ [too_big_log (name filename)]))
  ∧ (st_size filename ≤ 16384 →
     check_file rt allowed filename is_error log
     = check_text rt filename is_error log).
Proof.
  intros Hnot Hname. unfold check_file.
  rewrite bool_decide_eq_false_2 by done.
  unfold mbind at 1. unfold session_bind at 1. unfold run. rewrite Hname.
  cbn [negb]. change (16 * 1024) with 16384. split; intros Hsize.
  - apply N.ltb_lt in Hsize. by rewrite Hsize.
  - apply N.ltb_ge in Hsize. by rewrite Hsize.
Qed.

Lemma size_gate_witness :
  check_file latin1 fixed_only big_bad_entry false []
  = (Returned true, [too_big_log (lit "1.fixed.md")])
  ∧ N.of_nat (length (file_bytes full_good_entry)) = 16384
  ∧ check_text latin1 full_good_entry false [] = (Returned false, [])
  ∧ check_file latin1 fixed_only full_good_entry false []
    = check_text latin1 full_good_entry false [].
Proof.
  assert (lit "1.fixed.md" ∉ expected_non_md_files) as Hnot.
  { intros H%elem_of_singleton. discriminate. }
  split; [|split; [vm_compute; reflexivity|split; [vm_compute; reflexivity|]]].
  - apply (proj1 (size_gate latin1 fixed_only big_bad_entry false []
                    (lit "") Hnot eq_refl)).
    reflexivity.
  - apply (proj2 (size_gate latin1 fixed_only full_good_entry false []
                    (lit "") Hnot eq_refl)).
    vm_compute. discriminate.
Defined.

(** C7 as stated fails. The placeholder is skipped whatever its size, and
    a file whose name the validator rejects is reported for its name, not
    for its size. *)
Lemma oversize_not_always_reported :
  let keep := {| name := lit ".gitkeep"; st_size := 16385;
                 file_bytes := repeat "032"%byte (N.to_nat 16385) |} in
  let notes := {| name := lit "notes.txt"; st_size := 16385;
                  file_bytes := repeat "032"%byte (N.to_nat 16385) |} in
  16384 < st_size keep
  ∧ check_file latin1 fixed_only keep false [] = (Returned false, [])
  ∧ 16384 < st_size notes
  ∧ check_file latin1 fixed_only notes false []
    = (Returned true, [bad_name_log (lit "notes.txt") pattern_reason])
  ∧ bad_name_log (lit "notes.txt") pattern_reason
    ≠ too_big_log (lit "notes.txt").
Proof.
  cbv zeta. repeat split; try (vm_compute; reflexivity).
  vm_compute. discriminate.
Qed.

(** C8, where the code departs from it. An empty file with a valid name
    is a file that fails the content check, and [notes.txt] fails the
    name check. Scanned alone, [notes.txt] is reported and the run fails
    with the session error. Scanned after the empty file, it is never
    reached: the content validator raises on the empty file, the
    [IndexError] ends the scan, and nothing at all is reported. *)
Theorem scan_stops_on_empty_file :
  let empty := {| name := lit "1.fixed.md"; st_size := 0;
                  file_bytes := [] |} in
  let notes := {| name := lit "notes.txt"; st_size := 5;
                  file_bytes := ascii_bytes "hello" |} in
  towncrier_check latin1 fixed_only [notes] []
  = (Raised (SessionQuit found_errors),
     [bad_name_log (lit "notes.txt") pattern_reason])
  ∧ read_text empty = Returned (lit "")
  ∧ towncrier_check latin1 fixed_only [empty; notes] []
    = (Raised IndexError, []).
Proof. cbv zeta. repeat split; vm_compute; reflexivity. Qed.

(** * Further properties of the validators *)

(** ** Where the validators raise, and what they accept *)

Lemma filename_valid_raises rt filename allowed ex :
  is_changelog_filename_valid rt filename allowed = Raised ex →
  ex = IndexError.
Proof.
  intros H.
  destruct (decide (length (rsplit dot 2 filename) = 3%nat)) as [Hlen|Hlen];
    [|rewrite filename_valid_no_split in H; done].
  destruct (rsplit dot 2 filename) as [|d [|c [|e [|? ?]]]] eqn:Hs;
    try discriminate Hlen.
  destruct d as [|c0 d].
  - rewrite (filename_valid_empty_description _ _ _ _ _ Hs) in H. congruence.
  - rewrite (filename_valid_split _ _ _ _ _ _ Hs) in H; done.
Qed.

Lemma rsplit_three_inv filename d c e :
  rsplit dot 2 filename = [d; c; e] →
  filename = d ++ dot :: c ++ dot :: e ∧ (dot ∉ c) ∧ (dot ∉ e).
Proof.
  simpl. destruct (rpartition dot filename) as [[a e']|] eqn:H1; [|done].
  destruct (rpartition dot a) as [[d' c']|] eqn:H2; [|done].
  intros [= -> -> ->].
  apply rpartition_Some in H1 as [-> He], H2 as [-> Hc].
  by rewrite <- app_assoc.
Qed.

Lemma verdict_true_inv reasons r :
  verdict reasons = (true, r) → reasons = [] ∧ r = [].
Proof.
  destruct reasons; [|discriminate]. intros H.
  split; [done|]. rewrite verdict_nil in H. by injection H as <-.
Qed.

(** X1. The file name validator raises on exactly the names that read
    [.<change_type>.<extension>], an empty description before two dotless
    segments, and what it raises there is [IndexError]; on every other
    name it returns. *)
Theorem filename_valid_raises_iff (rt : interp) (filename : str)
    (allowed : gset str) :
  (∀ ex, is_changelog_filename_valid rt filename allowed = Raised ex →
         ex = IndexError)
  ∧ (is_changelog_filename_valid rt filename allowed = Raised IndexError
     ↔ ∃ c e, filename = dot :: c ++ dot :: e ∧ (dot ∉ c) ∧ (dot ∉ e)).
Proof.
  assert (∀ ex, is_changelog_filename_valid rt filename allowed = Raised ex →
    ex = IndexError ∧ ∃ c e, rsplit dot 2 filename = [[]; c; e]) as Hraise.
  { intros ex H.
    destruct (decide (length (rsplit dot 2 filename) = 3%nat)) as [Hlen|Hlen].
    - destruct (rsplit dot 2 filename) as [|d [|c [|e [|? ?]]]] eqn:Hs;
        try discriminate Hlen.
      destruct d as [|c0 d].
      + rewrite (filename_valid_empty_description _ _ _ _ _ Hs) in H.
        injection H as <-. eauto.
      + rewrite (filename_valid_split _ _ _ _ _ _ Hs) in H; done.
    - rewrite filename_valid_no_split in H; done. }
  split.
  - intros ex H. by destruct (Hraise ex H).
  - split.
    + intros H. destruct (Hraise _ H) as [_ (c & e & Hs)].
      apply rsplit_three_inv in Hs as (-> & ? & ?). eauto.
    + intros (c & e & -> & Hc & He).
      apply (filename_valid_empty_description rt _ allowed c e).
      exact (rsplit_three [] c e Hc He).
Qed.

(** X2. A name the validator accepts has the shape
    [<description>.<change_type>.md]: the change type is in the allow-list
    and has no dot, the description is not empty and is read by [int] or
    starts with a plus sign, and the reason string is empty. *)
Theorem accepted_name_shape (rt : interp) (filename : str)
    (allowed : gset str) (r : str) :
  is_changelog_filename_valid rt filename allowed = Returned (true, r) →
  r = []
  ∧ ∃ d c, filename = d ++ lit "." ++ c ++ lit ".md"
           ∧ c ∈ allowed ∧ (dot ∉ c) ∧ d ≠ []
           ∧ (returns (py_int rt d) ∨ head d = Some plus_sign).
Proof.
  intros H.
  destruct (decide (length (rsplit dot 2 filename) = 3%nat)) as [Hlen|Hlen];
    [|rewrite filename_valid_no_split in H; done].
  destruct (rsplit dot 2 filename) as [|d [|c [|e [|? ?]]]] eqn:Hs;
    try discriminate Hlen.
  destruct d as [|c0 d];
    [by rewrite (filename_valid_empty_description _ _ _ _ _ Hs) in H|].
  rewrite (filename_valid_split _ _ _ _ _ _ Hs) in H by done.
  assert (verdict (extension_reasons e ++ change_type_reasons rt c allowed
            ++ description_reasons rt (c0 :: d)) = (true, r)) as Hv
    by congruence.
  apply verdict_true_inv in Hv as [Hnil ->].
  apply app_eq_nil in Hnil as [Hext Hnil].
  apply app_eq_nil in Hnil as [Hct Hdesc].
  apply rsplit_three_inv in Hs as (Hname & Hc & He).
  split; [done|]. exists (c0 :: d), c.
  unfold extension_reasons in Hext. unfold change_type_reasons in Hct.
  unfold description_reasons, description_passes in Hdesc.
  destruct (bool_decide (e ≠ lit "md")) eqn:Hext'; [done|].
  destruct (bool_decide (c ∉ allowed)) eqn:Hct'; [done|].
  apply bool_decide_eq_false in Hext', Hct'.
  apply dec_stable in Hext' as ->. apply dec_stable in Hct'.
  split; [exact Hname|]. split; [done|]. split; [done|]. split; [done|].
  destruct (py_int rt (c0 :: d)) as [z|ex] eqn:Hint.
  - left. by exists z.
  - right. destruct (bool_decide _) eqn:Hb; [|done].
    by apply bool_decide_eq_true in Hb.
Qed.

Lemma accepted_name_shape_witness :
  lit "" = []
  ∧ ∃ d c, lit "+typo.fixed.md" = d ++ lit "." ++ c ++ lit ".md"
           ∧ c ∈ fixed_only ∧ (dot ∉ c) ∧ d ≠ []
           ∧ (returns (py_int latin1 d) ∨ head d = Some plus_sign).
Proof.
  apply (accepted_name_shape latin1 (lit "+typo.fixed.md") fixed_only (lit "")).
  reflexivity.
Defined.

(** X3. With an empty allow-list the validator accepts no name at all:
    it raises, or it returns the flag false. *)
Theorem empty_allow_list_accepts_nothing (rt : interp) (filename : str) :
  match is_changelog_filename_valid rt filename ∅ with
  | Returned (valid, _) => valid = false
  | Raised ex => ex = IndexError
  end.
Proof.
  destruct (is_changelog_filename_valid rt filename ∅) as [[[] r]|ex] eqn:H;
    [|done|by apply filename_valid_raises in H].
  exfalso.
  destruct (decide (length (rsplit dot 2 filename) = 3%nat)) as [Hlen|Hlen];
    [|rewrite filename_valid_no_split in H; done].
  destruct (rsplit dot 2 filename) as [|d [|c [|e [|? ?]]]] eqn:Hs;
    try discriminate Hlen.
  destruct d as [|c0 d];
    [by rewrite (filename_valid_empty_description _ _ _ _ _ Hs) in H|].
  rewrite (filename_valid_split _ _ _ _ _ _ Hs) in H by done.
  assert (verdict (extension_reasons e ++ change_type_reasons rt c ∅
            ++ description_reasons rt (c0 :: d)) = (true, r)) as Hv
    by congruence.
  apply verdict_true_inv in Hv as [Hnil _].
  apply app_eq_nil in Hnil as [_ Hnil].
  apply app_eq_nil in Hnil as [Hct _].
  unfold change_type_reasons in Hct.
  rewrite bool_decide_eq_true_2 in Hct; [done|]. apply not_elem_of_empty.
Qed.

Lemma lstrip_nil_blank s : lstrip s = [] → forallb py_isspace s = true.
Proof.
  induction s as [|c s IH]; simpl; [done|].
  destruct (py_isspace c); [done|discriminate].
Qed.

Lemma forallb_rev_blank s :
  forallb py_isspace (rev s) = true → forallb py_isspace s = true.
Proof.
  rewrite !forallb_forall. intros H x Hx. apply H. by apply in_rev in Hx.
Qed.

Lemma lstrip_fixed s : lstrip (lstrip s) = lstrip s.
Proof.
  induction s as [|c s IH]; simpl; [done|].
  destruct (py_isspace c) eqn:Hc; [done|]. simpl. by rewrite Hc.
Qed.

Lemma strip_nil_blank s : strip s = [] → forallb py_isspace s = true.
Proof.
  unfold strip, rstrip. intros H.
  apply (f_equal (@rev N)) in H. rewrite rev_involutive in H. simpl in H.
  apply lstrip_nil_blank, forallb_rev_blank in H.
  apply lstrip_blank in H. rewrite lstrip_fixed in H.
  by apply lstrip_nil_blank.
Qed.

(** X4. The content validator raises on exactly the contents without a
    character that is not white space, the empty content among them, and
    what it raises is [IndexError]; on every other content it returns. *)
Theorem entry_valid_raises_iff (rt : interp) (content : str) :
  (∀ ex, is_changelog_entry_valid rt content = Raised ex → ex = IndexError)
  ∧ (is_changelog_entry_valid rt content = Raised IndexError
     ↔ forallb py_isspace content = true).
Proof.
  assert (∀ ex, is_changelog_entry_valid rt content = Raised ex →
    ex = IndexError ∧ forallb py_isspace content = true) as Hraise.
  { intros ex H. destruct content as [|c s].
    - rewrite entry_valid_empty in H. by injection H as <-.
    - destruct (list_end (strip (c :: s))) as [Hs|(body & last & Hs)].
      + rewrite entry_valid_blank in H by (by apply strip_nil_blank).
        injection H as <-. split; [done|]. by apply strip_nil_blank.
      + by rewrite (entry_valid_split _ _ _ _ _ Hs) in H. }
  split.
  - intros ex H. by destruct (Hraise ex H).
  - split; [intros H; by destruct (Hraise _ H)|]. apply entry_valid_blank.
Qed.

(** X5. The content validator accepts exactly the contents that start
    with an upper-case letter and whose last character, trailing white
    space apart, is a full stop. *)
Theorem entry_valid_accepts_iff (rt : interp) (content : str) :
  is_changelog_entry_valid rt content = Returned (true, lit "")
  ↔ ∃ first rest body,
      content = first :: rest
      ∧ py_isalpha rt first = true ∧ py_isupper rt first = true
      ∧ strip content = body ++ [dot].
Proof.
  split.
  - intros H. destruct content as [|c s]; [discriminate|].
    destruct (list_end (strip (c :: s))) as [Hs|(body & last & Hs)].
    + rewrite entry_valid_blank in H by (by apply strip_nil_blank). done.
    + rewrite (entry_valid_split _ _ _ _ _ Hs) in H.
      assert (verdict (capital_reasons rt c ++ full_stop_reasons last)
              = (true, lit "")) as Hv by congruence.
      apply verdict_true_inv in Hv as [Hnil _].
      apply app_eq_nil in Hnil as [Hcap Hstop].
      unfold capital_reasons in Hcap. unfold full_stop_reasons in Hstop.
      destruct (py_isalpha rt c) eqn:Halpha, (py_isupper rt c) eqn:Hupper;
        try discriminate Hcap.
      destruct (bool_decide (last ≠ dot)) eqn:Hlast; [done|].
      apply bool_decide_eq_false, dec_stable in Hlast as ->.
      exists c, s, body. repeat split; done.
  - intros (first & rest & body & -> & Halpha & Hupper & Hs).
    rewrite (entry_valid_split _ _ _ _ _ Hs).
    unfold capital_reasons, full_stop_reasons. rewrite Halpha, Hupper.
    rewrite bool_decide_eq_false_2 by (intros H; by apply H). done.
Qed.

Lemma lstrip_app_blank s ws :
  forallb py_isspace ws = true →
  lstrip (s ++ ws) = match lstrip s with [] => [] | _ :: _ => lstrip s ++ ws end.
Proof.
  intros Hws. induction s as [|c s IH]; simpl.
  - by apply lstrip_blank.
  - by destruct (py_isspace c).
Qed.

Lemma lstrip_blank_app ws s :
  forallb py_isspace ws = true → lstrip (ws ++ s) = lstrip s.
Proof.
  induction ws as [|c ws IH]; simpl; [done|].
  intros [-> Hws]%andb_true_iff. by apply IH.
Qed.

Lemma rstrip_app_blank s ws :
  forallb py_isspace ws = true → rstrip (s ++ ws) = rstrip s.
Proof.
  intros Hws. unfold rstrip. rewrite rev_app_distr, lstrip_blank_app; [done|].
  apply forallb_rev_blank. by rewrite rev_involutive.
Qed.

Lemma strip_app_blank s ws :
  forallb py_isspace ws = true → strip (s ++ ws) = strip s.
Proof.
  intros Hws. unfold strip. rewrite lstrip_app_blank by done.
  destruct (lstrip s) as [|c s'] eqn:Hs; [done|].
  by rewrite rstrip_app_blank.
Qed.

(** X6. White space after the content, such as the newline that ends the
    file, does not change what the content validator answers, as long as
    there is content before it. *)
Theorem trailing_space_ignored (rt : interp) (content ws : str) :
  content ≠ [] → forallb py_isspace ws = true →
  is_changelog_entry_valid rt (content ++ ws)
  = is_changelog_entry_valid rt content.
Proof.
  intros Hne Hws. destruct content as [|c s]; [done|].
  unfold is_changelog_entry_valid.
  rewrite strip_app_blank by done.
  change ((c :: s) ++ ws) with (c :: (s ++ ws)). by rewrite !getitem_first.
Qed.

Lemma trailing_space_ignored_witness :
  is_changelog_entry_valid latin1 (lit "Fixed it." ++ [10; 32; 10])
  = is_changelog_entry_valid latin1 (lit "Fixed it.")
  ∧ is_changelog_entry_valid latin1 (lit "Fixed it.") = Returned (true, lit "").
Proof.
  split; [|reflexivity].
  apply (trailing_space_ignored latin1 (lit "Fixed it.") [10; 32; 10]).
  - discriminate.
  - reflexivity.
Defined.

Lemma scan_digits_all d :
  forallb ascii_digit d = true →
  scan_digits false d = Some (map (fun c => c - 48) d, []).
Proof.
  induction d as [|c d IH]; simpl; [done|].
  intros [Hc Hd]%andb_true_iff. unfold ascii_digit in Hc. rewrite Hc.
  apply andb_true_iff in Hc as [Hlo Hhi].
  apply N.leb_le in Hlo, Hhi.
  replace (c =? 95) with false by (symmetry; apply N.eqb_neq; lia).
  by rewrite IH.
Qed.

(** X7. [int] reads every run of one to 640 ASCII digits, whatever the
    digit limit of the interpreter, as the number the digits spell: a
    description made of digits passes the description check. *)
Theorem digits_are_read (rt : interp) (d : str) :
  d ≠ [] → forallb ascii_digit d = true → (length d ≤ 640)%nat →
  py_int rt d = Returned (digits_value (map (fun c => c - 48) d))
  ∧ description_passes rt d = true.
Proof.
  intros Hne Hd Hlen.
  assert (py_int rt d = Returned (digits_value (map (fun c => c - 48) d)))
    as Hint; [|split; [done|]; unfold description_passes; by rewrite Hint].
  assert (forallb (fun c => c <? 128) d = true) as Hascii.
  { apply forallb_forall. intros c Hc.
    rewrite forallb_forall in Hd. specialize (Hd c Hc).
    apply andb_true_iff in Hd as [_ Hhi]. apply N.leb_le in Hhi.
    apply N.ltb_lt. lia. }
  unfold py_int, ascii_buffer. rewrite Hascii.
  destruct d as [|c d]; [done|].
  pose proof (scan_digits_all _ Hd) as Hscan.
  simpl in Hd. apply andb_true_iff in Hd as [Hc _].
  apply andb_true_iff in Hc as [Hlo Hhi]. apply N.leb_le in Hlo, Hhi.
  assert (c_isspace c = false) as Hsp.
  { unfold c_isspace. apply orb_false_iff. split.
    - apply andb_false_iff. right. apply N.leb_gt. lia.
    - apply N.eqb_neq. lia. }
  cbn [skip_c_space]. rewrite Hsp.
  replace (c =? 43) with false by (symmetry; apply N.eqb_neq; lia).
  replace (c =? 45) with false by (symmetry; apply N.eqb_neq; lia).
  replace (c =? 95) with false by (symmetry; apply N.eqb_neq; lia).
  rewrite Hscan. cbn [map skip_c_space].
  unfold too_many_digits.
  replace (640 <? _) with false; [done|].
  symmetry. apply N.ltb_ge. cbn [length] in *. rewrite length_map. lia.
Qed.

Lemma digits_are_read_witness :
  py_int latin1 (lit "0042") = Returned 42%Z
  ∧ description_passes latin1 (lit "0042") = true.
Proof.
  apply (digits_are_read latin1 (lit "0042")).
  - discriminate.
  - reflexivity.
  - vm_compute. lia.
Defined.

(** * Further properties of the scan *)

Lemma entry_valid_raises rt content ex :
  is_changelog_entry_valid rt content = Raised ex → ex = IndexError.
Proof.
  intros H. destruct content as [|c s].
  - rewrite entry_valid_empty in H. congruence.
  - destruct (list_end (strip (c :: s))) as [Hs|(body & last & Hs)].
    + rewrite entry_valid_blank in H by (by apply strip_nil_blank).
      congruence.
    + by rewrite (entry_valid_split _ _ _ _ _ Hs) in H.
Qed.

Lemma utf8_decode_raises_bounded n b ex :
  (length b ≤ n)%nat → utf8_decode b = Raised ex → ex = UnicodeDecodeError.
Proof.
  revert b. induction n as [|n IH]; intros b Hlen.
  - destruct b; [done|simpl in Hlen; lia].
  - destruct b as [|b0 r0]; [done|]. simpl in Hlen. simpl.
    repeat (match goal with
            | |- context [if ?c then _ else _] => destruct c
            | |- context [match ?l with [] => _ | _ :: _ => _ end] =>
                is_var l; destruct l; simpl in Hlen
            end; try congruence);
      match goal with
      | |- context [utf8_decode ?r] =>
          destruct (utf8_decode r) eqn:Hr; simpl; [done|];
          intros [= <-]; apply (IH r); [lia | done]
      end.
Qed.

Lemma read_text_raises filename ex :
  read_text filename = Raised ex → ex = UnicodeDecodeError.
Proof.
  unfold read_text.
  destruct (utf8_decode (file_bytes filename)) as [s|ex'] eqn:H; [done|].
  intros [= <-]. by apply (utf8_decode_raises_bounded _ _ _ (le_n _) H).
Qed.

(** The loop body raises nothing but [IndexError], and its flag tells
    whether it logged a line. *)
Lemma check_file_alone rt allowed filename :
  match check_file rt allowed filename false [] with
  | (Returned failed, lines) =>
      (failed = false ∧ lines = []) ∨ (failed = true ∧ ∃ line, lines = [line])
  | (Raised ex, lines) => ex = IndexError ∧ lines = []
  end.
Proof.
  unfold check_file, check_text, session_log, run.
  unfold mbind, session_bind, mret, session_ret.
  destruct (bool_decide _); [by left|].
  destruct (is_changelog_filename_valid rt (name filename) allowed)
    as [[[] reason]|ex] eqn:Hname; cbn [negb].
  - destruct (16 * 1024 <? st_size filename); [right; eauto|].
    destruct (read_text filename) as [text|ex] eqn:Hread.
    + destruct (is_changelog_entry_valid rt text) as [[[] reason']|ex] eqn:He;
        cbn [negb].
      * by left.
      * right; eauto.
      * by apply entry_valid_raises in He as ->.
    + apply read_text_raises in Hread as ->. right; eauto.
  - right; eauto.
  - by apply filename_valid_raises in Hname as ->.
Qed.

Lemma check_files_returned rt allowed entries is_error log flag log' :
  check_files rt allowed entries is_error log = (Returned flag, log') →
  Forall (fun f => returns (fst (check_file rt allowed f false []))) entries.
Proof.
  revert is_error log. induction entries as [|f entries IH];
    intros is_error log H; [constructor|].
  cbn [check_files] in H. unfold mbind, session_bind in H.
  rewrite check_file_frame in H.
  destruct (check_file rt allowed f false []) as [[failed|ex] lines] eqn:Hf;
    [|done].
  constructor; [exists failed; by rewrite Hf | by eapply IH].
Qed.

Lemma check_files_raised rt allowed entries is_error log ex log' :
  check_files rt allowed entries is_error log = (Raised ex, log') →
  ex = IndexError.
Proof.
  revert is_error log. induction entries as [|f entries IH];
    intros is_error log H; [done|].
  cbn [check_files] in H. unfold mbind, session_bind in H.
  rewrite check_file_frame in H.
  pose proof (check_file_alone rt allowed f) as Hf.
  destruct (check_file rt allowed f false []) as [[failed|ex'] lines].
  - by eapply IH.
  - destruct Hf as [-> _]. congruence.
Qed.

Lemma failed_files_logged rt allowed entries :
  existsb (file_failed rt allowed) entries = false
  ↔ concat (map (file_lines rt allowed) entries) = [].
Proof.
  induction entries as [|f entries IH]; [done|].
  cbn [existsb map concat]. rewrite orb_false_iff, IH.
  unfold file_failed, file_lines.
  pose proof (check_file_alone rt allowed f) as Hf.
  destruct (check_file rt allowed f false []) as [[failed|ex] lines];
    cbn [fst snd].
  - destruct Hf as [[-> ->]|[-> [line ->]]].
    + split; [by intros [_ ?] | by intros ?].
    + split; [by intros [? _] | done].
  - destruct Hf as [_ ->]. split; [by intros [_ ?] | by intros ?].
Qed.

(** X8. The verdict of the scan agrees with its log: a scan that ends
    with success has logged nothing, and a scan that ends with the session
    error raises it with the closing message after at least one line was
    logged. A failed run is never silent and a successful run never logs
    a complaint. (A scan that an exception ends, the [IndexError] of a
    validator or the error of an entry that cannot be read, is neither.) *)
Theorem scan_verdict_matches_log (rt : interp) (allowed : gset str)
    (entries : list path) :
  let '(result, log) := towncrier_check rt allowed entries [] in
  (result = Returned tt → log = [])
  ∧ (∀ msg, result = Raised (SessionQuit msg) →
            msg = found_errors ∧ log ≠ []).
Proof.
  unfold towncrier_check, mbind, session_bind.
  destruct (check_files rt allowed entries false [])
    as [[flag|ex] log] eqn:Hscan.
  - pose proof (check_files_returned _ _ _ _ _ _ _ Hscan) as Hall.
    rewrite (check_files_all_return _ _ _ _ _ Hall) in Hscan.
    injection Hscan as <- <-. cbn [orb app].
    destruct (existsb _ _) eqn:Hfailed.
    + split; [done|]. intros msg [= <-]. split; [done|].
      intros Hnil%failed_files_logged. congruence.
    + split; [|done]. intros _. by apply failed_files_logged.
  - apply check_files_raised in Hscan as ->. split; [done|]. by intros msg.
Qed.

(** X9. The order in which the directory lists its files does not change
    the verdict: when the loop body returns on every file, two listings of
    the same files end the same way and log the same lines, up to their
    order. *)
Theorem scan_order_irrelevant (rt : interp) (allowed : gset str)
    (entries entries' : list path) :
  entries ≡ₚ entries' →
  Forall (fun f => returns (fst (check_file rt allowed f false []))) entries →
  fst (towncrier_check rt allowed entries [])
  = fst (towncrier_check rt allowed entries' [])
  ∧ snd (towncrier_check rt allowed entries [])
    ≡ₚ snd (towncrier_check rt allowed entries' []).
Proof.
  intros Hperm Hall.
  assert (Forall (fun f => returns (fst (check_file rt allowed f false [])))
            entries') as Hall' by (by rewrite <- Hperm).
  rewrite !towncrier_check_all_return by done. cbn [fst snd]. split.
  - assert (existsb (file_failed rt allowed) entries
            = existsb (file_failed rt allowed) entries') as ->; [|done].
    apply eq_true_iff_eq. rewrite !existsb_exists.
    split; intros (f & Hin & Hf); exists f; (split; [|done]).
    + by apply (Permutation_in _ Hperm).
    + by apply (Permutation_in _ (Permutation_sym Hperm)).
  - by rewrite Hperm.
Qed.

Lemma scan_order_irrelevant_witness :
  let good := {| name := lit "1.fixed.md"; st_size := 6;
                 file_bytes := ascii_bytes "Fixed." |} in
  let notes := {| name := lit "notes.txt"; st_size := 5;
                  file_bytes := ascii_bytes "hello" |} in
  fst (towncrier_check latin1 fixed_only [good; notes] [])
  = fst (towncrier_check latin1 fixed_only [notes; good] [])
  ∧ snd (towncrier_check latin1 fixed_only [good; notes] [])
    ≡ₚ snd (towncrier_check latin1 fixed_only [notes; good] []).
Proof.
  cbv zeta. apply scan_order_irrelevant.
  - apply Permutation_swap.
  - repeat constructor; eexists; vm_compute; reflexivity.
Defined.

(** * The settings of the module *)

Lemma split_not_nil sep s : split sep s ≠ [].
Proof.
  destruct s as [|c s]; simpl; [done|].
  destruct (c =? sep); [done|]. by destruct (split sep s).
Qed.

Lemma split_join sep s : join [sep] (split sep s) = s.
Proof.
  induction s as [|c s IH]; simpl; [done|].
  destruct (N.eqb_spec c sep) as [->|Hne].
  - destruct (split sep s) as [|seg segs] eqn:Hs;
      [by apply split_not_nil in Hs|].
    change (join [sep] ([] :: seg :: segs))
      with (sep :: join [sep] (seg :: segs)).
    by rewrite IH.
  - destruct (split sep s) as [|seg segs] eqn:Hs;
      [by apply split_not_nil in Hs|].
    simpl in *. destruct segs; by rewrite <- IH.
Qed.

Lemma split_no_sep sep s : Forall (fun seg => sep ∉ seg) (split sep s).
Proof.
  induction s as [|c s IH]; simpl.
  - repeat constructor. apply not_elem_of_nil.
  - destruct (N.eqb_spec c sep) as [->|Hne].
    + constructor; [apply not_elem_of_nil | done].
    + destruct (split sep s) as [|seg segs].
      * repeat constructor.
        intros [->|H]%elem_of_cons; [done|]. by apply elem_of_nil in H.
      * apply Forall_cons in IH as [Hseg Hsegs]. constructor; [|done].
        intros [->|H]%elem_of_cons; done.
Qed.

Lemma list_getitem_in {A} (l : list A) (i : Z) :
  (- Z.of_nat (length l) ≤ i < Z.of_nat (length l))%Z →
  ∃ x, list_getitem l i = Returned x ∧ x ∈ l.
Proof.
  intros Hi. unfold list_getitem.
  set (j := if (i <? 0)%Z then (i + Z.of_nat (length l))%Z else i).
  assert (0 ≤ j < Z.of_nat (length l))%Z as Hj.
  { unfold j. destruct (Z.ltb_spec i 0); lia. }
  replace ((0 <=? j) && (j <? Z.of_nat (length l)))%Z with true.
  - destruct (l !! Z.to_nat j) as [x|] eqn:Hx.
    + exists x. split; [done|]. by eapply list_elem_of_lookup_2.
    + apply lookup_ge_None in Hx. lia.
  - symmetry. apply andb_true_iff.
    split; [apply Z.leb_le | apply Z.ltb_lt]; lia.
Qed.

Lemma PYTHON_VERSIONS_not_nil environ major minor implementation :
  PYTHON_VERSIONS environ major minor implementation ≠ [].
Proof.
  unfold PYTHON_VERSIONS. destruct (_ && _); [done|].
  destruct (NOX_PYTHONS environ); [apply split_not_nil | done].
Qed.

(** X10. Whatever the environment and the platform, the choice of the
    default interpreter does not raise, and what it picks is one of
    [PYTHON_VERSIONS]. *)
Theorem default_version_is_listed (environ : gmap str str)
    (major minor implementation : str) :
  ∃ v, PYTHON_DEFAULT_VERSION environ major minor implementation = Returned v
       ∧ v ∈ PYTHON_VERSIONS environ major minor implementation.
Proof.
  unfold PYTHON_DEFAULT_VERSION.
  pose proof (PYTHON_VERSIONS_not_nil environ major minor implementation).
  destruct (PYTHON_VERSIONS environ major minor implementation)
    as [|v [|v' l]] eqn:Hv; [done| |].
  - apply list_getitem_in. simpl. lia.
  - replace (1 <? length (v :: v' :: l))%nat with true
      by (symmetry; apply Nat.ltb_lt; simpl; lia).
    apply list_getitem_in. simpl length. lia.
Qed.

(** X11. When [NOX_PYTHONS] is set and not empty, [PYTHON_VERSIONS] is
    its list of comma-separated fields: no version holds a comma, and
    joining the versions with commas gives the variable back. *)
Theorem versions_from_environment (environ : gmap str str)
    (major minor implementation pythons : str) :
  environ !! lit "NOX_PYTHONS" = Some pythons → pythons ≠ [] →
  join (lit ",") (PYTHON_VERSIONS environ major minor implementation)
  = pythons
  ∧ Forall (fun v => comma ∉ v)
      (PYTHON_VERSIONS environ major minor implementation).
Proof.
  intros Henv Hne. unfold PYTHON_VERSIONS, NOX_PYTHONS. rewrite Henv.
  destruct pythons as [|c pythons]; [done|]. cbn [truthy negb].
  rewrite andb_false_r. split; [apply split_join | apply split_no_sep].
Qed.

Lemma versions_from_environment_witness :
  let environ : gmap str str := {[ lit "NOX_PYTHONS" := lit "3.11,3.12" ]} in
  join (lit ",") (PYTHON_VERSIONS environ (lit "3") (lit "12") (lit "CPython"))
  = lit "3.11,3.12"
  ∧ Forall (fun v => comma ∉ v)
      (PYTHON_VERSIONS environ (lit "3") (lit "12") (lit "CPython")).
Proof.
  cbv zeta. apply versions_from_environment.
  - apply lookup_singleton_eq.
  - discriminate.
Defined.

(** X12. [NOX_EXTRAS] always holds exactly one list of extras: the empty
    list when the variable is not set, and otherwise all the
    comma-separated fields of the variable. The filter never removes that
    list, so an empty variable gives one extra with an empty name. *)
Theorem extras_is_one_list (environ : gmap str str) :
  NOX_EXTRAS environ
  = [match environ !! lit "NOX_EXTRAS" with
     | None => []
     | Some extras => split comma extras
     end]
  ∧ (environ !! lit "NOX_EXTRAS" = Some (lit "") →
     NOX_EXTRAS environ = [[lit ""]]).
Proof.
  unfold NOX_EXTRAS, _NOX_EXTRAS.
  assert (∀ extras,
    filter (fun l : list str => list_truthy l = true) [split comma extras]
    = [split comma extras]) as Hfilter.
  { intros extras. pose proof (split_not_nil comma extras).
    rewrite filter_cons_True; [done|]. by destruct (split comma extras). }
  split.
  - destruct (environ !! lit "NOX_EXTRAS"); [apply Hfilter | done].
  - intros ->. apply Hfilter.
Qed.

Lemma extras_is_one_list_witness :
  NOX_EXTRAS {[ lit "NOX_EXTRAS" := lit "" ]} = [[lit ""]].
Proof.
  apply (proj2 (extras_is_one_list {[ lit "NOX_EXTRAS" := lit "" ]})).
  apply lookup_singleton_eq.
Defined.

(** ** Coverage *)

(** X13. Coverage is skipped for every interpreter name that starts with
    [pypy], whatever the case of these four letters. *)
Theorem skip_coverage_pypy_any_case (uc : str → nat → list N)
    (implementation python_version : str) :
  startswith (map ascii_lower python_version) (lit "pypy") = true →
  Forall (fun c => c < 128) (take 4 python_version) →
  skip_coverage uc implementation (Some python_version) = true.
Proof.
  intros Hprefix Hascii. unfold skip_coverage.
  destruct python_version as [|c1 [|c2 [|c3 [|c4 rest]]]];
    try (exfalso; simpl in Hprefix;
         repeat (apply andb_true_iff in Hprefix as [_ Hprefix]);
         discriminate Hprefix).
  cbn [truthy]. simpl in Hascii.
  apply Forall_cons in Hascii as [H1 Hascii].
  apply Forall_cons in Hascii as [H2 Hascii].
  apply Forall_cons in Hascii as [H3 Hascii].
  apply Forall_cons in Hascii as [H4 _].
  apply N.ltb_lt in H1, H2, H3, H4.
  unfold py_lower. cbn [imap concat app compose].
  unfold lower_at at 1 2 3 4. rewrite H1, H2, H3, H4.
  change (lit "pypy") with [112; 121; 112; 121] in *.
  cbn [map startswith] in Hprefix. cbn [app startswith].
  rewrite !andb_true_r in *. exact Hprefix.
Qed.

Lemma skip_coverage_pypy_any_case_witness :
  skip_coverage (fun _ _ => []) (lit "CPython") (Some (lit "PyPy3.10")) = true.
Proof.
  apply skip_coverage_pypy_any_case.
  - reflexivity.
  - repeat constructor.
Defined.

(** X14. For the interpreter found in CI mode, whose major version starts
    with a digit, coverage is skipped exactly when the implementation is
    PyPy. *)
Theorem skip_coverage_of_detected (uc : str → nat → list N)
    (implementation major minor : str) (c : N) (digits : str) :
  major = c :: digits → ascii_digit c = true →
  skip_coverage uc implementation
    (Some (_detect_python_nox_id major minor implementation))
  = bool_decide (implementation = lit "PyPy").
Proof.
  intros -> Hc. unfold _detect_python_nox_id, skip_coverage.
  destruct (bool_decide (implementation = lit "PyPy")).
  - reflexivity.
  - cbn [truthy app]. unfold py_lower. cbn [imap concat app].
    unfold lower_at at 1. unfold ascii_digit in Hc.
    apply andb_true_iff in Hc as [Hlo Hhi]. apply N.leb_le in Hlo, Hhi.
    replace (c <? 128) with true by (symmetry; apply N.ltb_lt; lia).
    replace (ascii_isupper c) with false.
    + cbn [app startswith lit list_ascii_of_string map].
      replace (c =? _) with false; [done|].
      symmetry. apply N.eqb_neq. vm_compute N_of_ascii. lia.
    + symmetry. unfold ascii_isupper. apply andb_false_iff. left.
      apply N.leb_gt. lia.
Qed.

Lemma skip_coverage_of_detected_witness :
  skip_coverage (fun _ _ => []) (lit "PyPy")
    (Some (_detect_python_nox_id (lit "3") (lit "10") (lit "PyPy"))) = true
  ∧ skip_coverage (fun _ _ => []) (lit "CPython")
      (Some (_detect_python_nox_id (lit "3") (lit "12") (lit "CPython")))
    = false.
Proof.
  split.
  - apply (skip_coverage_of_detected _ (lit "PyPy") (lit "3") (lit "10")
             51 []); reflexivity.
  - apply (skip_coverage_of_detected _ (lit "CPython") (lit "3") (lit "12")
             51 []); reflexivity.
Defined.

(** * The release session *)

Lemma re_digits_app rt ds rest :
  forallb (re_digit rt) ds = true →
  match rest with c :: _ => re_digit rt c = false | [] => True end →
  re_digits rt (ds ++ rest) = rest.
Proof.
  intros Hds Hrest. induction ds as [|c ds IH]; simpl.
  - destruct rest as [|c rest]; [done|]. simpl. by rewrite Hrest.
  - simpl in Hds. apply andb_true_iff in Hds as [-> Hds]. by apply IH.
Qed.

Lemma re_digits_split rt s :
  ∃ ds, forallb (re_digit rt) ds = true ∧ s = ds ++ re_digits rt s.
Proof.
  induction s as [|c s (ds & Hds & IH)]; [by exists []|].
  simpl. destruct (re_digit rt c) eqn:Hc.
  - exists (c :: ds). simpl. rewrite Hc, Hds. split; [done|]. by f_equal.
  - by exists [].
Qed.

Lemma re_digits1_Some rt s rest :
  re_digits1 rt s = Some rest →
  ∃ ds, ds ≠ [] ∧ forallb (re_digit rt) ds = true ∧ s = ds ++ rest.
Proof.
  destruct s as [|c s]; [done|]. simpl.
  destruct (re_digit rt c) eqn:Hc; [|done]. intros [= <-].
  destruct (re_digits_split rt s) as (ds & Hds & Hs).
  exists (c :: ds). simpl. rewrite Hc, Hds. repeat split; [done|].
  by f_equal.
Qed.

Lemma re_digits1_app rt ds rest :
  ds ≠ [] → forallb (re_digit rt) ds = true →
  match rest with c :: _ => re_digit rt c = false | [] => True end →
  re_digits1 rt (ds ++ rest) = Some rest.
Proof.
  intros Hne Hds Hrest. destruct ds as [|c ds]; [done|]. simpl in *.
  apply andb_true_iff in Hds as [-> Hds]. by rewrite re_digits_app.
Qed.

Lemma re_char_Some x s rest : re_char x s = Some rest → s = x :: rest.
Proof.
  destruct s as [|c s]; [done|]. simpl.
  destruct (N.eqb_spec c x) as [->|]; [|done]. by intros [= <-].
Qed.

(** X15. The versions the release session accepts are exactly the
    strings [X.Y.Z], with X, Y and Z non-empty runs of decimal digits,
    and these same strings followed by one line feed. *)
Theorem version_pattern (rt : interp) (version : str) :
  version_re_match rt version = true
  ↔ ∃ x y z tail,
      x ≠ [] ∧ y ≠ [] ∧ z ≠ []
      ∧ forallb (re_digit rt) (x ++ y ++ z) = true
      ∧ (tail = [] ∨ tail = newline)
      ∧ version = x ++ lit "." ++ y ++ lit "." ++ z ++ tail.
Proof.
  unfold version_re_match. split.
  - destruct (re_digits1 rt version) as [s1|] eqn:H1; [|done]. simpl.
    destruct (re_char dot s1) as [s2|] eqn:H2; [|done]. simpl.
    destruct (re_digits1 rt s2) as [s3|] eqn:H3; [|done]. simpl.
    destruct (re_char dot s3) as [s4|] eqn:H4; [|done]. simpl.
    destruct (re_digits1 rt s4) as [tail|] eqn:H5; [|done]. intros Hend.
    apply re_digits1_Some in H1 as (x & Hx & Hdx & ->).
    apply re_char_Some in H2 as ->.
    apply re_digits1_Some in H3 as (y & Hy & Hdy & ->).
    apply re_char_Some in H4 as ->.
    apply re_digits1_Some in H5 as (z & Hz & Hdz & ->).
    exists x, y, z, tail. rewrite !forallb_app, Hdx, Hdy, Hdz.
    repeat split; try done.
    destruct tail as [|c [|? ?]]; [by left| |done].
    right. simpl in Hend. by apply N.eqb_eq in Hend as ->.
  - intros (x & y & z & tail & Hx & Hy & Hz & Hd & Htail & ->).
    rewrite !forallb_app in Hd.
    apply andb_true_iff in Hd as [Hdx Hd].
    apply andb_true_iff in Hd as [Hdy Hdz].
    change (lit ".") with [dot]. cbn [app].
    rewrite (re_digits1_app rt x) by done. simpl.
    rewrite (re_digits1_app rt y) by done. simpl.
    rewrite (re_digits1_app rt z); [by destruct Htail as [->| ->]|done..|].
    by destruct Htail as [->| ->].
Qed.

Lemma version_pattern_witness :
  version_re_match latin1 (lit "1.20.3" ++ newline) = true
  ∧ ∃ x y z tail,
      x ≠ [] ∧ y ≠ [] ∧ z ≠ []
      ∧ forallb (re_digit latin1) (x ++ y ++ z) = true
      ∧ (tail = [] ∨ tail = newline)
      ∧ lit "1.20.3" ++ newline = x ++ lit "." ++ y ++ lit "." ++ z ++ tail.
Proof.
  split; [reflexivity|].
  apply (proj1 (version_pattern latin1 (lit "1.20.3" ++ newline))).
  reflexivity.
Defined.

Lemma not_in_nil_trace (e : event) : e ∈ ([] : list event) → False.
Proof. apply not_elem_of_nil. Qed.

(** X16. The release session runs no command at all, neither the
    installation nor [towncrier build], unless its first argument matches
    the version pattern and [git diff --stat] printed nothing. *)
Theorem release_runs_only_when_ready (rt : interp) (w : world)
    (posargs : list str) (external : bool) (args : list str) :
  Ran external args ∈ snd (make_release_commit rt w posargs []) →
  ∃ version rest,
    posargs = version :: rest
    ∧ version_re_match rt version = true
    ∧ check_output w git_diff_stat = Some [].
Proof.
  unfold make_release_commit.
  unfold mbind, nox_bind, mret, nox_ret, nox_error, nox_check_output.
  destruct posargs as [|version rest];
    [intros H; by apply not_in_nil_trace in H|].
  destruct (version_re_match rt version) eqn:Hre; cbn [negb];
    [|intros H; by apply not_in_nil_trace in H].
  destruct (check_output w git_diff_stat) as [[|b bs]|] eqn:Hdiff;
    cbn [list_truthy];
    [|intros H; by apply not_in_nil_trace in H..].
  intros _. by exists version, rest.
Qed.

Lemma release_runs_only_when_ready_witness :
  ∃ version rest,
    [lit "1.2.3"] = version :: rest
    ∧ version_re_match latin1 version = true
    ∧ check_output quiet_world git_diff_stat = Some [].
Proof.
  apply (release_runs_only_when_ready latin1 quiet_world [lit "1.2.3"]
           false (towncrier_build (lit "1.2.3"))).
  apply list_elem_of_In. vm_compute.
  repeat first [left; reflexivity | right].
Defined.

Lemma last_cons_Some (x y : N) (s : str) :
  last s = Some y → last (x :: s) = Some y.
Proof. destruct s; [done|]. done. Qed.

(** Bytes that end with a line feed decode, if they decode, to a text
    that ends with a line feed. *)
Lemma utf8_decode_newline_bounded n b s :
  (length b ≤ n)%nat →
  utf8_decode (b ++ ["010"%byte]) = Returned s → last s = Some 10.
Proof.
  revert b s. induction n as [|n IH]; intros b s Hlen H.
  - destruct b; [|simpl in Hlen; lia]. by injection H as <-.
  - destruct b as [|b0 r]; [by injection H as <-|].
    simpl in Hlen. cbn [app] in H. simpl in H. unfold mbind, outcome_bind in H.
    assert (∀ (r' : bytes) (x : N) (s : str),
      (length r' ≤ n)%nat →
      match utf8_decode (r' ++ ["010"%byte]) with
      | Returned a => Returned (x :: a)
      | Raised e => Raised e
      end = Returned s → last s = Some 10) as Hstep.
    { intros r' x s0 Hr' H0.
      destruct (utf8_decode (r' ++ ["010"%byte])) as [s'|] eqn:Hr;
        [|discriminate H0].
      injection H0 as <-. apply last_cons_Some. by apply (IH r'). }
    destruct (to_N b0 <? 128); [apply (Hstep r _ _ ltac:(lia) H)|].
    destruct (between 194 (to_N b0) 223).
    { destruct r as [|b1 r1]; [discriminate H|]. simpl in H, Hlen.
      destruct (is_continuation (to_N b1)); [|discriminate H].
      apply (Hstep r1 _ _ ltac:(lia) H). }
    destruct (between 224 (to_N b0) 239).
    { destruct r as [|b1 [|b2 r2]]; [discriminate H| |].
      - simpl in H. rewrite andb_false_r in H. discriminate H.
      - simpl in H, Hlen. destruct (_ && _); [|discriminate H].
        apply (Hstep r2 _ _ ltac:(lia) H). }
    destruct (between 240 (to_N b0) 244); [|discriminate H].
    destruct r as [|b1 [|b2 [|b3 r3]]]; [discriminate H..| |].
    + simpl in H. rewrite andb_false_r in H. discriminate H.
    + simpl in H, Hlen. destruct (_ && _); [|discriminate H].
      apply (Hstep r3 _ _ ltac:(lia) H).
Qed.

Lemma utf8_decode_newline b s :
  utf8_decode (b ++ ["010"%byte]) = Returned s → s ≠ lit "master".
Proof.
  intros H%(utf8_decode_newline_bounded _ _ _ (le_n _)) ->. discriminate.
Qed.

(** X17. When git prints the name of the branch followed by a line feed,
    as it does, the release session logs the warning about releasing from
    another branch than master whatever the branch is, master included:
    the text it compares with [master] still ends with the line feed. *)
Theorem release_always_warns (rt : interp) (w : world)
    (version : str) (rest : list str) (branch : bytes) (text : str) :
  version_re_match rt version = true →
  check_output w git_diff_stat = Some [] →
  check_output w git_current_branch = Some (branch ++ ["010"%byte]) →
  utf8_decode (branch ++ ["010"%byte]) = Returned text →
  head (snd (make_release_commit rt w (version :: rest) []))
  = Some (Logged branch_warning).
Proof.
  intros Hre Hdiff Hbranch Htext. unfold make_release_commit.
  unfold mbind, nox_bind, mret, nox_ret, nox_error, nox_check_output,
    nox_eval, nox_log, pdm_install, nox_run.
  rewrite Hre, Hdiff, Hbranch, Htext. cbn [negb list_truthy].
  rewrite bool_decide_eq_true_2 by (by eapply utf8_decode_newline).
  cbn [app]. by repeat destruct (command_succeeds w _).
Qed.

Lemma release_always_warns_witness :
  check_output quiet_world git_current_branch
  = Some (list_byte_of_string "master" ++ ["010"%byte])
  ∧ head (snd (make_release_commit latin1 quiet_world [lit "1.2.3"] []))
    = Some (Logged branch_warning).
Proof.
  split; [reflexivity|].
  apply (release_always_warns latin1 quiet_world (lit "1.2.3") []
           (list_byte_of_string "master") (lit "master" ++ newline));
    reflexivity.
Defined.

(** * The unit test session and the build session *)

Ltac refute_member H :=
  repeat (apply elem_of_cons in H as [H|H]; [discriminate H|]);
  by apply elem_of_nil in H.

(** X18. The unit test session asks for the [cover] session exactly when
    the installation and the four test runs all succeeded, coverage is not
    skipped for the interpreter, and no argument was passed on the command
    line. *)
Theorem cover_notified_iff (uc : str → nat → list N) (w : world)
    (implementation : str) (python : option str)
    (posargs extras : list str) :
  Notified (lit "cover")
    ∈ snd (unit_ uc w implementation python posargs extras [])
  ↔ fst (unit_ uc w implementation python posargs extras []) = Done tt
    ∧ skip_coverage uc implementation python = false
    ∧ posargs = [].
Proof.
  unfold unit_, pdm_install, nox_run, nox_notify.
  unfold mbind, nox_bind, mret, nox_ret.
  destruct (skip_coverage uc implementation python);
    destruct posargs as [|arg posargs]; cbn [negb andb list_truthy];
    repeat (match goal with
            | |- context [command_succeeds w ?c] =>
                destruct (command_succeeds w c)
            end; cbn [app fst snd]);
    (split; [intros H; try refute_member H | intros (H1 & H2 & H3)]);
    try discriminate; try done.
  apply list_elem_of_In. cbn [In]. tauto.
Qed.







(** * More on the split and on the scan *)

Lemma rsplit_not_nil sep k s : rsplit sep k s ≠ [].
Proof.
  destruct k as [|k]; simpl; [done|].
  destruct (rpartition sep s) as [[a b]|]; [|done].
  by destruct (rsplit sep k a).
Qed.

Lemma join_snoc sep (l : list str) b :
  l ≠ [] → join sep (l ++ [b]) = join sep l ++ sep ++ b.
Proof.
  induction l as [|x l IH]; [done|]. intros _.
  destruct l as [|y l]; [done|].
  change (join sep ((x :: y :: l) ++ [b]))
    with (x ++ sep ++ join sep ((y :: l) ++ [b])).
  rewrite IH by done.
  change (join sep (x :: y :: l)) with (x ++ sep ++ join sep (y :: l)).
  by rewrite <- !app_assoc.
Qed.

(** X20. The right split loses nothing and cuts at most [maxsplit] times:
    its segments joined by the separator give the string back, there are
    between one and [maxsplit + 1] of them, and every segment after the
    first is free of the separator. *)
Theorem rsplit_join (sep : N) (maxsplit : nat) (s : str) :
  join [sep] (rsplit sep maxsplit s) = s
  ∧ (1 ≤ length (rsplit sep maxsplit s) ≤ S maxsplit)%nat
  ∧ Forall (fun seg => sep ∉ seg) (tail (rsplit sep maxsplit s)).
Proof.
  revert s. induction maxsplit as [|k IH]; intros s; simpl.
  - repeat split; [lia..|constructor].
  - destruct (rpartition sep s) as [[a b]|] eqn:Hs.
    + apply rpartition_Some in Hs as [-> Hb].
      destruct (IH a) as (Hjoin & Hlen & Hfree).
      pose proof (rsplit_not_nil sep k a) as Hne.
      rewrite join_snoc, Hjoin, length_app by done. simpl.
      repeat split; [lia..|].
      destruct (rsplit sep k a) as [|seg segs]; [done|]. simpl in *.
      apply Forall_app. split; [done|]. by constructor.
    + simpl. repeat split; [lia..|constructor].
Qed.

Lemma check_files_skip_placeholder rt allowed entries is_error log :
  check_files rt allowed
    (filter (fun f => name f ∉ expected_non_md_files) entries) is_error log
  = check_files rt allowed entries is_error log.
Proof.
  revert is_error log. induction entries as [|f entries IH];
    intros is_error log; [done|].
  destruct (decide (name f ∈ expected_non_md_files)) as [Hin|Hnot].
  - rewrite filter_cons_False by (intros H; by apply H).
    cbn [check_files]. unfold mbind, session_bind.
    rewrite check_file_placeholder by done. apply IH.
  - rewrite filter_cons_True by done.
    cbn [check_files]. unfold mbind, session_bind.
    destruct (check_file rt allowed f is_error log) as [[flag|ex] log'];
      [apply IH|done].
Qed.

(** X21. The placeholder files are invisible to the scan: taking every
    [.gitkeep] out of the listing changes neither how the scan ends nor
    what it logs. *)
Theorem placeholder_is_invisible (rt : interp) (allowed : gset str)
    (entries : list path) (log : list str) :
  towncrier_check rt allowed
    (filter (fun f => name f ∉ expected_non_md_files) entries) log
  = towncrier_check rt allowed entries log.
Proof.
  unfold towncrier_check, mbind, session_bind.
  by rewrite check_files_skip_placeholder.
Qed.

(** X22. What it takes for a file to pass the scan without a line in the
    log: to be a placeholder, or to have a name the validator accepts, a
    size of at most 16384 bytes, bytes that decode as UTF-8 and a text the
    content validator accepts. *)
Theorem file_passes_iff (rt : interp) (allowed : gset str) (filename : path) :
  check_file rt allowed filename false [] = (Returned false, [])
  ↔ name filename ∈ expected_non_md_files
    ∨ ((∃ r, is_changelog_filename_valid rt (name filename) allowed
             = Returned (true, r))
       ∧ st_size filename ≤ 16384
       ∧ ∃ text r,
           read_text filename = Returned text
           ∧ is_changelog_entry_valid rt text = Returned (true, r)).
Proof.
  unfold check_file, check_text, session_log, run.
  unfold mbind, session_bind, mret, session_ret.
  change (16 * 1024) with 16384.
  destruct (decide (name filename ∈ expected_non_md_files)) as [Hin|Hnot].
  { rewrite bool_decide_eq_true_2 by done. split; [by left|done]. }
  rewrite bool_decide_eq_false_2 by done.
  destruct (is_changelog_filename_valid rt (name filename) allowed)
    as [[[] reason]|ex]; cbn [negb].
  - destruct (N.ltb_spec 16384 (st_size filename)) as [Hbig|Hsmall].
    + split; [done|]. intros [?|(_ & Hle & _)]; [done|lia].
    + destruct (read_text filename) as [text|ex] eqn:Hread.
      * destruct (is_changelog_entry_valid rt text) as [[[] reason']|ex]
          eqn:He; cbn [negb].
        -- split; [|done]. intros _. right. eauto 10.
        -- split; [done|].
           intros [?|(_ & _ & text' & r & [= <-] & Hvalid)]; [done|].
           congruence.
        -- split; [done|].
           intros [?|(_ & _ & text' & r & [= <-] & Hvalid)]; [done|].
           congruence.
      * split; [by destruct ex|].
        intros [?|(_ & _ & text' & r & Hread' & _)]; done.
  - split; [done|]. intros [?|([r Hr] & _)]; done.
  - split; [done|]. intros [?|([r Hr] & _)]; done.
Qed.
